(** * The tool-call dispatch loop of career-chatbot/app.py

    A shallow embedding of [app.py]: the notification function, the two tool
    functions, the constructor of [CareerChatBot], [handle_tool_calls],
    [system_prompt] and the [chat] loop, over an explicit world (the list
    objects of the Python heap and the trace of observable events), with the
    libraries the module calls ([requests], [json], the completion client,
    the file readers) taken as parameters. *)

From Stdlib Require Import Ascii String ZArith DecimalString Lia.
From stdpp Require Import list strings.

Set Warnings "-register-all".
Open Scope string_scope.
Open Scope list_scope.

(** ** Python values *)

(** What [json.loads] produces.  A [JDict] lists the items of a Python dict
    in insertion order; a float keeps the text of its literal. *)
Inductive json : Type :=
| JNull
| JBool (b : bool)
| JInt (z : Z)
| JFloat (lit : string)
| JStr (s : string)
| JList (l : list json)
| JDict (items : list (string * json)).

(** A value returned by a call: JSON-like data, or an object of some class
    that [json.dumps] cannot serialise. *)
Inductive pyval : Type :=
| VJson (j : json)
| VObject (cls : string).

(** The exception classes that occur. *)
Inductive exn : Type :=
| TypeError
| JSONDecodeError
| FileNotFoundError
| OtherError (cls : string).

Definition exn_eqb (a b : exn) : bool :=
  match a, b with
  | TypeError, TypeError => true
  | JSONDecodeError, JSONDecodeError => true
  | FileNotFoundError, FileNotFoundError => true
  | OtherError x, OtherError y => String.eqb x y
  | _, _ => false
  end.

(** ** Messages *)

(** [tool_call.id], [tool_call.function.name], [tool_call.function.arguments]. *)
Record ToolCall : Type := mkToolCall {
  tc_id : string;
  tc_name : string;
  tc_arguments : string
}.

(** A message of the conversation: a dict with [role] and [content] (and
    [tool_call_id] for a tool result), or the message object of a response,
    whose [tool_calls] is [None] or a list. *)
Record Message : Type := mkMessage {
  role : string;
  content : option string;
  tool_calls : option (list ToolCall);
  tool_call_id : option string
}.

(** [response.choices[0]]. *)
Record Response : Type := mkResponse {
  finish_reason : string;
  message : Message
}.

(** The form data of the Telegram request. *)
Record Payload : Type := mkPayload {
  chat_id : option string;
  text : string;
  parse_mode : string
}.

(** The response object of [requests.post]. *)
Record HttpResponse : Type := mkHttpResponse {
  status_code : Z;
  body : string
}.

(** [response.ok]: false exactly for the status codes 400..599. *)
Definition ok (r : HttpResponse) : bool :=
  negb ((400 <=? status_code r)%Z && (status_code r <? 600)%Z).

(** ** The world *)

(** What the program does that can be observed from outside, and entry into
    a function of the module through the dispatch of a tool call (with the
    values bound to its parameters). *)
Inductive Event : Type :=
| EPrint (line : string)
| EPost (url : string) (data : Payload)
| ECompletion (model : string) (messages : list Message)
| EInvoke (fn : string) (bound : list (string * json)).

Definition loc := nat.

(** [heap]: the list objects, a reference being an index; [trace]: the
    events so far, oldest first. *)
Record World : Type := mkWorld {
  heap : list (list Message);
  trace : list Event
}.

Fixpoint count_posts (t : list Event) : nat :=
  match t with
  | [] => 0
  | EPost _ _ :: t' => S (count_posts t')
  | _ :: t' => count_posts t'
  end.

Fixpoint count_completions (t : list Event) : nat :=
  match t with
  | [] => 0
  | ECompletion _ _ :: t' => S (count_completions t')
  | _ :: t' => count_completions t'
  end.

(** The message lists sent to the completion client, in order. *)
Fixpoint sent (t : list Event) : list (list Message) :=
  match t with
  | [] => []
  | ECompletion _ ms :: t' => ms :: sent t'
  | _ :: t' => sent t'
  end.

(** The notifications posted, in order. *)
Fixpoint posted (t : list Event) : list Payload :=
  match t with
  | [] => []
  | EPost _ p :: t' => p :: posted t'
  | _ :: t' => posted t'
  end.

(** ** Computations *)

(** A computation ends with a value, with an exception, or is cut off when
    the fuel of the [while] loop is used up. *)
Inductive Result (A : Type) : Type :=
| Val (a : A)
| Raise (e : exn)
| OutOfFuel.
Arguments Val {A} a.
Arguments Raise {A} e.
Arguments OutOfFuel {A}.

Definition M (A : Type) : Type := World -> Result A * World.

Definition ret {A} (a : A) : M A := fun w => (Val a, w).
Definition raise {A} (e : exn) : M A := fun w => (Raise e, w).
Definition out_of_fuel {A} : M A := fun w => (OutOfFuel, w).

Definition bind {A B} (m : M A) (k : A -> M B) : M B :=
  fun w =>
    match m w with
    | (Val a, w') => k a w'
    | (Raise e, w') => (Raise e, w')
    | (OutOfFuel, w') => (OutOfFuel, w')
    end.

Notation "'let!' x ':=' m 'in' k" := (bind m (fun x => k))
  (at level 10, x name, m at level 100, k at level 200).
Notation "m >>; k" := (bind m (fun _ => k))
  (at level 100, k at level 200, right associativity).

(** [try: m except e: handler]. *)
Definition try_except {A} (m : M A) (e : exn) (handler : M A) : M A :=
  fun w =>
    match m w with
    | (Raise e', w') => if exn_eqb e' e then handler w' else (Raise e', w')
    | r => r
    end.

Definition lift {A} (r : exn + A) : M A :=
  match r with
  | inl e => raise e
  | inr a => ret a
  end.

Definition emit (e : Event) : M unit :=
  fun w => (Val tt, {| heap := heap w; trace := trace w ++ [e] |}).

Definition print (line : string) : M unit := emit (EPrint line).

(** A new list object. *)
Definition new_list (l : list Message) : M loc :=
  fun w => (Val (length (heap w)), {| heap := heap w ++ [l]; trace := trace w |}).

(** Reading a list object; a reference to no list is a [TypeError]. *)
Definition read_list (r : loc) : M (list Message) :=
  fun w =>
    match heap w !! r with
    | Some l => (Val l, w)
    | None => (Raise TypeError, w)
    end.

(** [r.extend(xs)], in place. *)
Definition list_extend (r : loc) (xs : list Message) : M unit :=
  fun w =>
    match heap w !! r with
    | Some l => (Val tt, {| heap := <[r := l ++ xs]> (heap w); trace := trace w |})
    | None => (Raise TypeError, w)
    end.

(** [r.append(x)], in place. *)
Definition list_append (r : loc) (x : Message) : M unit := list_extend r [x].

(** [str(v)] as an f-string takes it: the text itself for a string, and Python's
    [repr] (a parameter) for floats and containers. *)
Definition py_str (py_repr : json -> string) (v : json) : string :=
  match v with
  | JStr s => s
  | JInt z => NilZero.string_of_int (Z.to_int z)
  | JBool true => "True"
  | JBool false => "False"
  | JNull => "None"
  | _ => py_repr v
  end.

Definition str_of_option (o : option string) : string :=
  match o with
  | Some s => s
  | None => "None"
  end.

(** ** What the module takes from outside *)

Record Externals : Type := mkExternals {
  (** [os.getenv("TELEGRAM_BOT_TOKEN")], [os.getenv("TELEGRAM_CHAT_ID")] *)
  TELEGRAM_TOKEN : option string;
  TELEGRAM_CHAT_ID : option string;
  (** [json.loads], [json.dumps] on JSON-like data, [repr] *)
  json_loads : string -> exn + json;
  json_dumps : json -> string;
  py_repr : json -> string;
  (** [requests.post(url, data=payload)], given the number of earlier posts:
      an exception (no connection, timeout) or a response *)
  requests_post : nat -> string -> Payload -> exn + HttpResponse;
  (** [client.chat.completions.create(model, messages, tools)], given the
      number of earlier calls *)
  completions_create : nat -> list Message -> exn + Response;
  (** a call of an imported callable ([load_dotenv], [OpenAI], [PdfReader])
      with keyword arguments *)
  call_imported : string -> list (string * json) -> exn + pyval;
  (** [PdfReader(path)] and [page.extract_text()] for each of its pages *)
  pdf_pages : string -> exn + list (option string);
  (** [open(path, "r", encoding="utf-8")] and [f.read()] *)
  read_text : string -> exn + string
}.

(** ** The module *)

Definition nl : string := String "010"%char EmptyString.

Definition str_of_Z (z : Z) : string := NilZero.string_of_int (Z.to_int z).

(** [self] of [CareerChatBot]: the fields the prompt is built from. *)
Record CareerChatBot : Type := mkCareerChatBot {
  name : string;
  linkedin : string;
  summary : string
}.

(** What a name of the module's namespace is bound to. *)
Inductive Global : Type :=
| GNotify
| GRecordUserDetails
| GRecordUnknownQuestion
| GCareerChatBot
| GImported (callable : string)
| GData.

(** The namespace [globals()] returns once the module is loaded and [bot]
    is made: the imports, the constants read from the environment, the three
    functions, the tool descriptions, the class and [bot].  [GData] stands
    for a module, a string, [None], a dict, a list or an instance, none of
    which can be called. *)
Definition module_namespace : list (string * Global) :=
  [ ("__name__", GData); ("__doc__", GData); ("__package__", GData);
    ("__loader__", GData); ("__spec__", GData); ("__annotations__", GData);
    ("__builtins__", GData); ("__file__", GData); ("__cached__", GData);
    ("os", GData); ("json", GData); ("requests", GData);
    ("load_dotenv", GImported "load_dotenv"); ("OpenAI", GImported "OpenAI");
    ("PdfReader", GImported "PdfReader"); ("gr", GData);
    ("TELEGRAM_TOKEN", GData); ("TELEGRAM_CHAT_ID", GData);
    ("telegram_url", GData);
    ("notify", GNotify);
    ("record_user_details", GRecordUserDetails);
    ("record_unknown_question", GRecordUnknownQuestion);
    ("record_user_details_json", GData);
    ("record_unknown_question_json", GData);
    ("tools", GData);
    ("CareerChatBot", GCareerChatBot);
    ("bot", GData) ].

Fixpoint assoc {A} (k : string) (l : list (string * A)) : option A :=
  match l with
  | [] => None
  | (k', v) :: l' => if String.eqb k k' then Some v else assoc k l'
  end.

(** [globals().get(tool_name)] *)
Definition globals_get (tool_name : string) : option Global :=
  assoc tool_name module_namespace.

(** A tool description: the dict under ["function"], with the
    ["properties"] (each with its ["type"]) and the ["required"] names of its
    ["parameters"], which have ["type": "object"]. *)
Record ToolSpec : Type := mkToolSpec {
  fn_name : string;
  description : string;
  properties : list (string * string);
  required : list string
}.

Definition record_user_details_json : ToolSpec :=
  {| fn_name := "record_user_details";
     description := "Record when a user provides an email";
     properties := [("email", "string"); ("name", "string"); ("notes", "string")];
     required := ["email"] |}.

Definition record_unknown_question_json : ToolSpec :=
  {| fn_name := "record_unknown_question";
     description := "Record an unanswered question";
     properties := [("question", "string")];
     required := ["question"] |}.

Definition tools : list ToolSpec :=
  [record_user_details_json; record_unknown_question_json].

Definition registered (tool_name : string) : bool :=
  existsb (fun t => String.eqb tool_name (fn_name t)) tools.

(** Whether a value has a JSON-schema type. *)
Definition has_type (ty : string) (v : json) : bool :=
  match v with
  | JStr _ => String.eqb ty "string"
  | JInt _ => String.eqb ty "integer" || String.eqb ty "number"
  | JFloat _ => String.eqb ty "number"
  | JBool _ => String.eqb ty "boolean"
  | JNull => String.eqb ty "null"
  | JList _ => String.eqb ty "array"
  | JDict _ => String.eqb ty "object"
  end.

(** Whether a payload satisfies the parameter schema of a tool description:
    an object that has every required name and whose declared properties,
    where present, have the declared type. *)
Definition satisfies (spec : ToolSpec) (v : json) : bool :=
  match v with
  | JDict items =>
      forallb (fun r => match assoc r items with Some _ => true | None => false end)
              (required spec)
      && forallb (fun p => match assoc (fst p) items with
                           | Some x => has_type (snd p) x
                           | None => true
                           end)
                 (properties spec)
  | _ => false
  end.

(** Binding the keyword arguments of a call of [f] to the parameters of [f],
    each with its default if it has one: [None] (a [TypeError]) for a
    keyword that is no parameter, and for a parameter without default that
    no keyword gives. *)
Fixpoint bind_params (params : list (string * option json))
    (kw : list (string * json)) : option (list (string * json)) :=
  match params with
  | [] => Some []
  | (p, default) :: params' =>
      match (match assoc p kw with Some v => Some v | None => default end) with
      | None => None
      | Some v =>
          match bind_params params' kw with
          | None => None
          | Some bs => Some ((p, v) :: bs)
          end
      end
  end.

Definition bind_args (params : list (string * option json))
    (kw : list (string * json)) : option (list (string * json)) :=
  if forallb (fun kv => existsb (String.eqb (fst kv)) (map fst params)) kw
  then bind_params params kw
  else None.

Section App.

Context (X : Externals).

Definition telegram_url : string :=
  "https://api.telegram.org/bot" +:+ str_of_option (TELEGRAM_TOKEN X)
    +:+ "/sendMessage".

(** [requests.post(url, data=data)] *)
Definition post (url : string) (data : Payload) : M HttpResponse :=
  fun w =>
    let w' := {| heap := heap w; trace := trace w ++ [EPost url data] |} in
    match requests_post X (count_posts (trace w)) url data with
    | inl e => (Raise e, w')
    | inr r => (Val r, w')
    end.

Definition notify (message : json) : M pyval :=
  let payload :=
    {| chat_id := TELEGRAM_CHAT_ID X;
       text := "🤖 **CAREER CHATBOT LOG** 🤖" +:+ nl +:+ nl
                 +:+ py_str (py_repr X) message;
       parse_mode := "Markdown" |} in
  let! response := post telegram_url payload in
  (if negb (ok response) then
     print "--- TELEGRAM NOTIFICATION ERROR ---" >>;
     print ("Status Code: " +:+ str_of_Z (status_code response)) >>;
     print ("Response: " +:+ body response) >>;
     print "-----------------------------------"
   else ret tt) >>;
  ret (VJson (JInt (status_code response))).

Definition record_user_details (email name notes : json) : M pyval :=
  notify (JStr ("New visitor ➜ " +:+ py_str (py_repr X) name
                  +:+ ", Email: " +:+ py_str (py_repr X) email
                  +:+ ", Notes: " +:+ py_str (py_repr X) notes)) >>;
  ret (VJson (JDict [("recorded", JStr "ok")])).

Definition record_unknown_question (question : json) : M pyval :=
  notify (JStr ("Unknown question logged ➜ "
                  +:+ py_str (py_repr X) question)) >>;
  ret (VJson (JDict [("recorded", JStr "ok")])).

Definition pdf_path : string := "me/Annabatula Sai Harsha CV Simple (1).pdf".
Definition summary_path : string := "me/new_summary.txt".

Definition linkedin_placeholder : string :=
  "Error: LinkedIn PDF file not found. Check file path.".
Definition summary_placeholder : string :=
  "Error: Summary file not found. Check file path.".

(** [CareerChatBot.__init__]; making the client object does nothing that is
    observed here. *)
Definition __init__ : M CareerChatBot :=
  let name := "A.S Harsha" in
  let! linkedin :=
    try_except
      (let! pages := lift (pdf_pages X pdf_path) in
       ret (String.concat "" (map (fun t => default "" t) pages)))
      FileNotFoundError
      (print ("Error: Could not find " +:+ pdf_path) >>;
       ret linkedin_placeholder) in
  let! summary :=
    try_except
      (lift (read_text X summary_path))
      FileNotFoundError
      (print ("Error: Could not find " +:+ summary_path) >>;
       ret summary_placeholder) in
  ret {| name := name; linkedin := linkedin; summary := summary |}.

(** The parameters of the module's functions, with their defaults. *)
Definition notify_params : list (string * option json) :=
  [("message", None)].
Definition record_user_details_params : list (string * option json) :=
  [("email", None);
   ("name", Some (JStr "Name not provided"));
   ("notes", Some (JStr "not provided"))].
Definition record_unknown_question_params : list (string * option json) :=
  [("question", None)].

(** The call of [tool_fn] with [args] unpacked into keyword arguments:
    calling [None] or data, or unpacking what is no
    dict, is a [TypeError], and so is a keyword the function does not take
    or a missing required one. *)
Definition call (tool_fn : option Global) (args : json) : M pyval :=
  match tool_fn, args with
  | None, _ => raise TypeError
  | Some GData, _ => raise TypeError
  | Some _, (JNull | JBool _ | JInt _ | JFloat _ | JStr _ | JList _) =>
      raise TypeError
  | Some GNotify, JDict kw =>
      match bind_args notify_params kw with
      | Some ([(_, message)] as bound) =>
          emit (EInvoke "notify" bound) >>; notify message
      | _ => raise TypeError
      end
  | Some GRecordUserDetails, JDict kw =>
      match bind_args record_user_details_params kw with
      | Some ([(_, email); (_, name); (_, notes)] as bound) =>
          emit (EInvoke "record_user_details" bound) >>;
          record_user_details email name notes
      | _ => raise TypeError
      end
  | Some GRecordUnknownQuestion, JDict kw =>
      match bind_args record_unknown_question_params kw with
      | Some ([(_, question)] as bound) =>
          emit (EInvoke "record_unknown_question" bound) >>;
          record_unknown_question question
      | _ => raise TypeError
      end
  | Some GCareerChatBot, JDict kw =>
      match bind_args [] kw with
      | Some bound =>
          emit (EInvoke "CareerChatBot" bound) >>;
          __init__ >>; ret (VObject "CareerChatBot")
      | None => raise TypeError
      end
  | Some (GImported f), JDict kw => lift (call_imported X f kw)
  end.

(** [json.dumps(result)] *)
Definition dumps (result : pyval) : exn + string :=
  match result with
  | VJson j => inr (json_dumps X j)
  | VObject _ => inl TypeError
  end.

(** The body of the [for] loop of [handle_tool_calls]: the message appended
    to [results] for one tool call. *)
Definition handle_tool_call (tool_call : ToolCall) : M Message :=
  let tool_name := tc_name tool_call in
  print ("Tool called: " +:+ tool_name) >>;
  let! args := lift (json_loads X (tc_arguments tool_call)) in
  let tool_fn := globals_get tool_name in
  let! result := call tool_fn args in
  let! content := lift (dumps result) in
  ret {| role := "tool";
         content := Some content;
         tool_calls := None;
         tool_call_id := Some (tc_id tool_call) |}.

Fixpoint handle_each (tool_calls : list ToolCall) (results : list Message)
    : M (list Message) :=
  match tool_calls with
  | [] => ret results
  | tool_call :: rest =>
      let! m := handle_tool_call tool_call in
      handle_each rest (results ++ [m])
  end.

(** [handle_tool_calls]; iterating over [None] is a [TypeError]. *)
Definition handle_tool_calls (tool_calls : option (list ToolCall))
    : M (list Message) :=
  match tool_calls with
  | None => raise TypeError
  | Some tcs => handle_each tcs []
  end.

Definition system_prompt (self : CareerChatBot) : string :=
  nl +:+ "You are acting as " +:+ name self +:+ ". Answer questions about "
    +:+ name self
    +:+ "'s career, education, experience, projects, " +:+ nl
    +:+ "and background using the summary and LinkedIn profile below." +:+ nl
    +:+ nl
    +:+ "If you cannot answer something → call record_unknown_question." +:+ nl
    +:+ "If the user shows interest → ask for email and call record_user_details."
    +:+ nl +:+ nl
    +:+ "Be professional, friendly, and helpful." +:+ nl +:+ nl
    +:+ "## Summary:" +:+ nl +:+ summary self +:+ nl +:+ nl
    +:+ "## LinkedIn:" +:+ nl +:+ linkedin self +:+ nl +:+ nl
    +:+ "Stay in character as " +:+ name self +:+ " throughout." +:+ nl.

(** [self.client.chat.completions.create(model, messages=messages,
    tools=tools)] with the list object [messages] as it is now. *)
Definition create (model : string) (messages : loc) : M Response :=
  let! ms := read_list messages in
  fun w =>
    let w' := {| heap := heap w; trace := trace w ++ [ECompletion model ms] |} in
    match completions_create X (count_completions (trace w)) ms with
    | inl e => (Raise e, w')
    | inr r => (Val r, w')
    end.

(** The [while not done] loop of [chat], [fuel] bounding its iterations. *)
Fixpoint chat_loop (fuel : nat) (messages : loc) : M (option string) :=
  match fuel with
  | 0 => out_of_fuel
  | S fuel' =>
      let! response := create "llama3.2" messages in
      let finish := finish_reason response in
      if String.eqb finish "tool_calls" then
        let tool_calls := tool_calls (message response) in
        let! results := handle_tool_calls tool_calls in
        list_append messages (message response) >>;
        list_extend messages results >>;
        chat_loop fuel' messages
      else
        ret (content (message response))
  end.

Definition system_message (self : CareerChatBot) : Message :=
  {| role := "system"; content := Some (system_prompt self);
     tool_calls := None; tool_call_id := None |}.

Definition user_message (message : string) : Message :=
  {| role := "user"; content := Some message;
     tool_calls := None; tool_call_id := None |}.

(** [chat(self, message, history)], [history] being a reference to the
    caller's list. *)
Definition chat (fuel : nat) (self : CareerChatBot) (message : string)
    (history : loc) : M (option string) :=
  let! h := read_list history in
  let! messages := new_list ([system_message self] ++ h ++ [user_message message]) in
  chat_loop fuel messages.

End App.

(** ** Properties of computations *)

(** [m] leaves a world that [R] relates to the one it started in. *)
Definition preserves {A} (R : World -> World -> Prop) (m : M A) : Prop :=
  forall w, R w (snd (m w)).

(** [m] is not cut off: it has no loop. *)
Definition total {A} (m : M A) : Prop :=
  forall w, fst (m w) <> OutOfFuel.

(** What a tool call may do to the world: the heap stays as it is, and the
    trace grows by events among which there is no call of the completion
    client. *)
Definition tool_effects (w w' : World) : Prop :=
  heap w' = heap w /\ exists t, trace w' = trace w ++ t /\ sent t = [].

(** The tool-role message that answers a tool call. *)
Definition answers (tc : ToolCall) (m : Message) : Prop :=
  role m = "tool" /\ tool_call_id m = Some (tc_id tc) /\ tool_calls m = None.

(** The world after the call of the completion client with [ms]. *)
Definition called (ms : list Message) (w : World) : World :=
  {| heap := heap w; trace := trace w ++ [ECompletion "llama3.2" ms] |}.

(** The world after the response message and the results are put at the end
    of the list [messages]. *)
Definition extended (messages : loc) (ms : list Message) (w : World) : World :=
  {| heap := <[messages := ms]> (heap w); trace := trace w |}.

(** The world after more events. *)
Definition logged (t : list Event) (w : World) : World :=
  {| heap := heap w; trace := trace w ++ t |}.

(** The calls of functions of the module through tool dispatch, in order. *)
Fixpoint invoked (t : list Event) : list (string * list (string * json)) :=
  match t with
  | [] => []
  | EInvoke fn bound :: t' => (fn, bound) :: invoked t'
  | _ :: t' => invoked t'
  end.

(** The lines printed, in order. *)
Fixpoint printed (t : list Event) : list string :=
  match t with
  | [] => []
  | EPrint line :: t' => line :: printed t'
  | _ :: t' => printed t'
  end.

(** [s] occurs in [t]. *)
Definition contains (s t : string) : Prop :=
  exists a b, t = a +:+ s +:+ b.

(** The form data [notify] posts for [message]. *)
Definition notification (X : Externals) (message : json) : Payload :=
  {| chat_id := TELEGRAM_CHAT_ID X;
     text := "🤖 **CAREER CHATBOT LOG** 🤖" +:+ nl +:+ nl
               +:+ py_str (py_repr X) message;
     parse_mode := "Markdown" |}.

(** What [notify] prints for a response. *)
Definition error_log (response : HttpResponse) : list Event :=
  if ok response then []
  else [ EPrint "--- TELEGRAM NOTIFICATION ERROR ---";
         EPrint ("Status Code: " +:+ str_of_Z (status_code response));
         EPrint ("Response: " +:+ body response);
         EPrint "-----------------------------------" ].

(** The tool-role message with the serialised [result] for the call [id]. *)
Definition tool_message (X : Externals) (id : string) (result : json) : Message :=
  {| role := "tool";
     content := Some (json_dumps X result);
     tool_calls := None;
     tool_call_id := Some id |}.

Definition recorded_ok : json := JDict [("recorded", JStr "ok")].

(** The messages the two tools pass to [notify]. *)
Definition visitor_message (X : Externals) (email name notes : json) : json :=
  JStr ("New visitor ➜ " +:+ py_str (py_repr X) name
          +:+ ", Email: " +:+ py_str (py_repr X) email
          +:+ ", Notes: " +:+ py_str (py_repr X) notes).

Definition question_message (X : Externals) (question : json) : json :=
  JStr ("Unknown question logged ➜ " +:+ py_str (py_repr X) question).

(** The events of a tool call that reaches [notify] with [message]: the
    line printed by [handle_tool_calls], the call of the function [fn] with
    its parameters bound, and the request posted. *)
Definition dispatch_events (X : Externals) (fn : string)
    (bound : list (string * json)) (message : json) : list Event :=
  [ EPrint ("Tool called: " +:+ fn);
    EInvoke fn bound;
    EPost (telegram_url X) (notification X message) ].

(** The list [chat] builds from the history [h] and the user's text. *)
Definition first_messages (self : CareerChatBot) (h : list Message)
    (msg : string) : list Message :=
  [system_message self] ++ h ++ [user_message msg].

(** The world with one more list object. *)
Definition allocated (l : list Message) (w : World) : World :=
  {| heap := heap w ++ [l]; trace := trace w |}.

(** The completion client asks for tool calls at every call. *)
Definition always_tool_calls (X : Externals) : Prop :=
  forall n ms, exists r,
    completions_create X n ms = inr r /\ finish_reason r = "tool_calls".

(** ** The conversation invariant *)

(** The ids of the tool calls a message asks for. *)
Definition requests (m : Message) : list string :=
  match tool_calls m with
  | Some tcs => map tc_id tcs
  | None => []
  end.

Definition is_result_for (id : string) (m : Message) : bool :=
  String.eqb (role m) "tool"
  && match tool_call_id m with
     | Some i => String.eqb i id
     | None => false
     end.

(** Reading a conversation with the ids still to be answered at hand: while
    there are some, the next message is the tool result for the first of
    them; when there is none, the next message is no tool result, and the
    calls it asks for are to be answered next; at the end none is left. *)
Fixpoint well_formed_from (pending : list string) (ms : list Message) : bool :=
  match ms with
  | [] => match pending with [] => true | _ :: _ => false end
  | m :: ms' =>
      match pending with
      | id :: pending' => is_result_for id m && well_formed_from pending' ms'
      | [] =>
          negb (String.eqb (role m) "tool") && well_formed_from (requests m) ms'
      end
  end.

Definition well_formed (ms : list Message) : bool := well_formed_from [] ms.

(** The message lists one turn sends to the completion client, the first
    being [ms]: each further one is the one before with the assistant
    message of the response and, after it, the results of its tool calls, one
    for each call and in the order of the calls. *)
Inductive sends : list Message -> list (list Message) -> Prop :=
| sends_none ms : sends ms []
| sends_last ms : sends ms [ms]
| sends_next ms a tcs results rest :
    tool_calls a = Some tcs ->
    Forall2 answers tcs results ->
    sends (ms ++ a :: results) rest ->
    sends ms (ms :: rest).

(** Every response of the client carries an assistant message. *)
Definition assistant_responses (X : Externals) : Prop :=
  forall n ms r, completions_create X n ms = inr r -> role (message r) = "assistant".

(** ** Names and arguments a tool call may carry *)

(** Whether [globals()] binds the name to something that can be called. *)
Definition callable (tool_name : string) : bool :=
  match globals_get tool_name with
  | None | Some GData => false
  | Some _ => true
  end.

(** The arguments of a call of the tool [spec] that the dispatch turns
    down: text that [json.loads] does not decode, a payload that is no
    object, an object without a required name, or with a name that is no
    property of the tool. *)
Definition turned_down (X : Externals) (spec : ToolSpec) (arguments : string)
    : Prop :=
  match json_loads X arguments with
  | inl _ => True
  | inr (JDict items) =>
      (exists r, In r (required spec) /\ assoc r items = None)
      \/ (exists k, In k (map fst items) /\ ~ In k (map fst (properties spec)))
  | inr _ => True
  end.

(** The exception of a tool call that is not carried out: that of
    [json.loads] when the arguments do not decode, a [TypeError] otherwise. *)
Definition refusal (X : Externals) (tc : ToolCall) : exn :=
  match json_loads X (tc_arguments tc) with
  | inl e => e
  | inr _ => TypeError
  end.

(** ** Two transports *)

(** The transport gives a response to every request. *)
Definition transport_answers
    (post : nat -> string -> Payload -> exn + HttpResponse) : Prop :=
  forall n url data, exists r, post n url data = inr r.

(** The environment with another transport. *)
Definition with_transport (X : Externals)
    (post : nat -> string -> Payload -> exn + HttpResponse) : Externals :=
  {| TELEGRAM_TOKEN := TELEGRAM_TOKEN X;
     TELEGRAM_CHAT_ID := TELEGRAM_CHAT_ID X;
     json_loads := json_loads X;
     json_dumps := json_dumps X;
     py_repr := py_repr X;
     requests_post := post;
     completions_create := completions_create X;
     call_imported := call_imported X;
     pdf_pages := pdf_pages X;
     read_text := read_text X |}.

(** No response of the client asks for a call of [notify] itself. *)
Definition notify_not_requested (X : Externals) : Prop :=
  forall n ms r tcs tc,
    completions_create X n ms = inr r ->
    tool_calls (message r) = Some tcs ->
    In tc tcs ->
    tc_name tc <> "notify".

(** The trace without the lines printed. *)
Fixpoint unprinted (t : list Event) : list Event :=
  match t with
  | [] => []
  | EPrint _ :: t' => unprinted t'
  | e :: t' => e :: unprinted t'
  end.

(** Two worlds that differ at most in what was printed. *)
Definition same_but_prints (w1 w2 : World) : Prop :=
  heap w1 = heap w2 /\ unprinted (trace w1) = unprinted (trace w2).

(** Two outcomes of the same kind, the values being related by [Q]. *)
Definition related {A} (Q : A -> A -> Prop) (r1 r2 : Result A) : Prop :=
  match r1, r2 with
  | Val a, Val b => Q a b
  | Raise e1, Raise e2 => e1 = e2
  | OutOfFuel, OutOfFuel => True
  | _, _ => False
  end.

(** Two computations that, from worlds differing in prints only, end alike
    and in worlds differing in prints only. *)
Definition agree {A} (Q : A -> A -> Prop) (m1 m2 : M A) : Prop :=
  forall w1 w2, same_but_prints w1 w2 ->
    related Q (fst (m1 w1)) (fst (m2 w2))
    /\ same_but_prints (snd (m1 w1)) (snd (m2 w2)).

(** ** A concrete environment *)

(** A decoder for the fragment of JSON with integers, strings with the
    one-letter escapes, [true], [false], [null], arrays and objects, in the
    way of [json.loads]: a later item of an object replaces an earlier one
    with the same key, and text outside the fragment is a
    [JSONDecodeError]. *)
Module Json.

Definition is_ws (c : ascii) : bool :=
  match nat_of_ascii c with
  | 32 | 9 | 10 | 13 => true
  | _ => false
  end.

Fixpoint skip_ws (s : string) : string :=
  match s with
  | String c s' => if is_ws c then skip_ws s' else s
  | EmptyString => s
  end.

Definition digit (c : ascii) : option Z :=
  let n := nat_of_ascii c in
  if (48 <=? n)%nat && (n <=? 57)%nat then Some (Z.of_nat (n - 48)) else None.

Fixpoint digits (s : string) (acc : Z) : Z * string :=
  match s with
  | String c s' =>
      match digit c with
      | Some d => digits s' (10 * acc + d)%Z
      | None => (acc, s)
      end
  | EmptyString => (acc, s)
  end.

(** An integer without sign: no digit of its own after a leading zero. *)
Definition natural (s : string) : option (Z * string) :=
  match s with
  | String c s' =>
      match digit c with
      | Some 0%Z =>
          match s' with
          | String c' _ =>
              match digit c' with Some _ => None | None => Some (0%Z, s') end
          | EmptyString => Some (0%Z, s')
          end
      | Some d => Some (digits s' d)
      | None => None
      end
  | EmptyString => None
  end.

Definition unescape (c : ascii) : option ascii :=
  match nat_of_ascii c with
  | 34 => Some (ascii_of_nat 34)
  | 92 => Some "\"%char
  | 47 => Some "/"%char
  | 98 => Some (ascii_of_nat 8)
  | 102 => Some (ascii_of_nat 12)
  | 110 => Some (ascii_of_nat 10)
  | 114 => Some (ascii_of_nat 13)
  | 116 => Some (ascii_of_nat 9)
  | _ => None
  end.

(** The characters of a string after its opening quote. *)
Fixpoint chars (s : string) : option (string * string) :=
  match s with
  | EmptyString => None
  | String c s' =>
      match nat_of_ascii c with
      | 34 => Some (EmptyString, s')
      | 92 =>
          match s' with
          | String e s'' =>
              match unescape e, chars s'' with
              | Some c', Some (t, rest) => Some (String c' t, rest)
              | _, _ => None
              end
          | EmptyString => None
          end
      | n =>
          if (n <? 32)%nat then None
          else match chars s' with
               | Some (t, rest) => Some (String c t, rest)
               | None => None
               end
      end
  end.

Fixpoint dict_set (k : string) (v : json) (items : list (string * json))
    : list (string * json) :=
  match items with
  | [] => [(k, v)]
  | (k', v') :: items' =>
      if String.eqb k k' then (k, v) :: items'
      else (k', v') :: dict_set k v items'
  end.

Definition after (p s : string) : option string :=
  if String.prefix p s
  then Some (String.substring (String.length p) (String.length s - String.length p) s)
  else None.

Fixpoint value (fuel : nat) (s : string) : option (json * string) :=
  match fuel with
  | 0 => None
  | S fuel' =>
      match skip_ws s with
      | String c s' =>
          match nat_of_ascii c with
          | 123 =>
              match skip_ws s' with
              | String c' s'' =>
                  if Nat.eqb (nat_of_ascii c') 125 then Some (JDict [], s'')
                  else members fuel' (skip_ws s') []
              | EmptyString => None
              end
          | 91 =>
              match skip_ws s' with
              | String c' s'' =>
                  if Nat.eqb (nat_of_ascii c') 93 then Some (JList [], s'')
                  else elements fuel' (skip_ws s') []
              | EmptyString => None
              end
          | 34 =>
              match chars s' with
              | Some (t, rest) => Some (JStr t, rest)
              | None => None
              end
          | 45 =>
              match natural s' with
              | Some (z, rest) => Some (JInt (- z), rest)
              | None => None
              end
          | _ =>
              match natural (String c s') with
              | Some (z, rest) => Some (JInt z, rest)
              | None =>
                  match after "true" (String c s'), after "false" (String c s'),
                        after "null" (String c s') with
                  | Some rest, _, _ => Some (JBool true, rest)
                  | _, Some rest, _ => Some (JBool false, rest)
                  | _, _, Some rest => Some (JNull, rest)
                  | _, _, _ => None
                  end
              end
          end
      | EmptyString => None
      end
  end
with elements (fuel : nat) (s : string) (acc : list json)
    : option (json * string) :=
  match fuel with
  | 0 => None
  | S fuel' =>
      match value fuel' s with
      | Some (v, rest) =>
          match skip_ws rest with
          | String c rest' =>
              match nat_of_ascii c with
              | 44 => elements fuel' rest' (acc ++ [v])
              | 93 => Some (JList (acc ++ [v]), rest')
              | _ => None
              end
          | EmptyString => None
          end
      | None => None
      end
  end
with members (fuel : nat) (s : string) (acc : list (string * json))
    : option (json * string) :=
  match fuel with
  | 0 => None
  | S fuel' =>
      match skip_ws s with
      | String q s' =>
          if Nat.eqb (nat_of_ascii q) 34 then
            match chars s' with
            | Some (k, rest) =>
                match skip_ws rest with
                | String c rest' =>
                    if Nat.eqb (nat_of_ascii c) 58 then
                      match value fuel' rest' with
                      | Some (v, rest'') =>
                          match skip_ws rest'' with
                          | String d rest''' =>
                              match nat_of_ascii d with
                              | 44 => members fuel' rest''' (dict_set k v acc)
                              | 125 => Some (JDict (dict_set k v acc), rest''')
                              | _ => None
                              end
                          | EmptyString => None
                          end
                      | None => None
                      end
                    else None
                | EmptyString => None
                end
            | None => None
            end
          else None
      | EmptyString => None
      end
  end.

Definition loads (s : string) : exn + json :=
  match value (S (String.length s)) s with
  | Some (v, rest) =>
      match skip_ws rest with
      | EmptyString => inr v
      | String _ _ => inl JSONDecodeError
      end
  | None => inl JSONDecodeError
  end.

Fixpoint quoted (q : ascii) (s : string) : string :=
  match s with
  | EmptyString => EmptyString
  | String c s' =>
      if Ascii.eqb c q || Ascii.eqb c "\"%char
      then String "\"%char (String c (quoted q s'))
      else String c (quoted q s')
  end.

Definition dq : string := String (ascii_of_nat 34) EmptyString.

Definition dumps_str (s : string) : string :=
  dq +:+ quoted (ascii_of_nat 34) s +:+ dq.

(** [json.dumps] with its default separators, for printable ASCII text. *)
Fixpoint dumps (v : json) : string :=
  match v with
  | JNull => "null"
  | JBool true => "true"
  | JBool false => "false"
  | JInt z => NilZero.string_of_int (Z.to_int z)
  | JFloat lit => lit
  | JStr s => dumps_str s
  | JList l => "[" +:+ String.concat ", " (map dumps l) +:+ "]"
  | JDict items =>
      "{" +:+ String.concat ", "
                (map (fun kv => dumps_str (fst kv) +:+ ": " +:+ dumps (snd kv))
                     items)
          +:+ "}"
  end.

Definition repr_str (s : string) : string :=
  "'" +:+ quoted "'"%char s +:+ "'".

(** [repr], strings in single quotes. *)
Fixpoint repr (v : json) : string :=
  match v with
  | JNull => "None"
  | JBool true => "True"
  | JBool false => "False"
  | JInt z => NilZero.string_of_int (Z.to_int z)
  | JFloat lit => lit
  | JStr s => repr_str s
  | JList l => "[" +:+ String.concat ", " (map repr l) +:+ "]"
  | JDict items =>
      "{" +:+ String.concat ", "
                (map (fun kv => repr_str (fst kv) +:+ ": " +:+ repr (snd kv))
                     items)
          +:+ "}"
  end.

(** JSON text written with apostrophes for its double quotes. *)
Fixpoint text (s : string) : string :=
  match s with
  | EmptyString => EmptyString
  | String c s' =>
      String (if Ascii.eqb c "'"%char then ascii_of_nat 34 else c) (text s')
  end.

End Json.


(** An environment with the decoder above, a given transport and a given
    completion client; no knowledge file is present. *)
Definition env (post : nat -> string -> Payload -> exn + HttpResponse)
    (client : nat -> list Message -> exn + Response) : Externals :=
  {| TELEGRAM_TOKEN := Some "123:abc";
     TELEGRAM_CHAT_ID := Some "42";
     json_loads := Json.loads;
     json_dumps := Json.dumps;
     py_repr := Json.repr;
     requests_post := post;
     completions_create := client;
     call_imported := fun _ _ => inl TypeError;
     pdf_pages := fun _ => inl FileNotFoundError;
     read_text := fun _ => inl FileNotFoundError |}.

(** A transport that answers every request with the same status. *)
Definition answering (code : Z) (text : string)
    : nat -> string -> Payload -> exn + HttpResponse :=
  fun _ _ _ => inr {| status_code := code; body := text |}.

(** A transport without connection. *)
Definition unreachable : nat -> string -> Payload -> exn + HttpResponse :=
  fun _ _ _ => inl (OtherError "ConnectionError").

Definition assistant_requests (tcs : list ToolCall) : Response :=
  {| finish_reason := "tool_calls";
     message := {| role := "assistant"; content := None;
                   tool_calls := Some tcs; tool_call_id := None |} |}.

Definition assistant_says (reply : string) : Response :=
  {| finish_reason := "stop";
     message := {| role := "assistant"; content := Some reply;
                   tool_calls := None; tool_call_id := None |} |}.

(** A client that requests the same tool calls at every call. *)
Definition always_requests (tcs : list ToolCall)
    : nat -> list Message -> exn + Response :=
  fun _ _ => inr (assistant_requests tcs).

(** A client that requests tool calls at its first call and gives a final
    reply afterwards. *)
Definition requests_once (tcs : list ToolCall) (reply : string)
    : nat -> list Message -> exn + Response :=
  fun n _ =>
    match n with
    | 0 => inr (assistant_requests tcs)
    | S _ => inr (assistant_says reply)
    end.

Definition empty_world : World := {| heap := [[]]; trace := [] |}.

Definition harsha : CareerChatBot :=
  {| name := "A.S Harsha"; linkedin := "cv"; summary := "summary" |}.

(** ** Tool calls and models for the examples *)

Definition email_only : ToolCall :=
  {| tc_id := "call_1";
     tc_name := "record_user_details";
     tc_arguments := Json.text "{'email': 'a@b.com'}" |}.

Definition email_42 : ToolCall :=
  {| tc_id := "call_1";
     tc_name := "record_user_details";
     tc_arguments := Json.text "{'email': 42}" |}.

Definition name_only : ToolCall :=
  {| tc_id := "call_1";
     tc_name := "record_user_details";
     tc_arguments := Json.text "{'name': 'Bob'}" |}.

Definition notify_hi : ToolCall :=
  {| tc_id := "call_1";
     tc_name := "notify";
     tc_arguments := Json.text "{'message': 'hi'}" |}.

Definition delete_everything : ToolCall :=
  {| tc_id := "call_1";
     tc_name := "delete_everything";
     tc_arguments := Json.text "{}" |}.

(** A model that asks for the given tool calls once and then replies
    "done", the notifications being answered with the given status. *)
Definition once_env (code : Z) (tcs : list ToolCall) : Externals :=
  env (answering code "reply of the server") (requests_once tcs "done").

(** The same model with no connection to the server. *)
Definition offline_env (tcs : list ToolCall) : Externals :=
  env unreachable (requests_once tcs "done").

(** A model that replies at once. *)
Definition final_env : Externals :=
  env (answering 200 "ok") (fun _ _ => inr (assistant_says "Hello!")).

(** The world of a turn with an empty history at reference 0, once [chat]
    has made its list (reference 1). *)
Definition turn_world : World :=
  allocated (first_messages harsha [] "hello") empty_world.

(** A request to record the question "What is X?". *)
Definition ask_what_is_x : ToolCall :=
  {| tc_id := "call_1";
     tc_name := "record_unknown_question";
     tc_arguments := Json.text "{'question': 'What is X?'}" |}.

(** A model that asks for that tool call for ever, the notifications being
    delivered. *)
Definition looping_env : Externals :=
  env (answering 200 "ok") (always_requests [ask_what_is_x]).

(** A model that asks for tool calls once and then repeats, as its reply,
    the content of the last message it was sent. *)
Definition repeats_last_result (tcs : list ToolCall)
    : nat -> list Message -> exn + Response :=
  fun n ms =>
    match n with
    | 0 => inr (assistant_requests tcs)
    | S _ =>
        inr (assistant_says
               (match last ms with
                | Some {| content := Some c |} => c
                | _ => ""
                end))
    end.

(** ** How a turn ends *)

(** The turn ended in the world [w'] with the exception [e] of the handling
    of the tool calls of a response: the response to the call number [n] of
    the completion client, the last call made. *)
Definition fails_handling (X : Externals) (e : exn) (n : nat) (w' : World)
    : Prop :=
  exists t ms r w1,
    trace w1 = t ++ [ECompletion "llama3.2" ms]
    /\ count_completions t = n
    /\ completions_create X n ms = inr r
    /\ finish_reason r = "tool_calls"
    /\ handle_tool_calls X (tool_calls (message r)) w1 = (Raise e, w').

(** The outcome of handling, from the world [w], the tool calls [pre]
    followed by a call [tc] that is refused: the exception of a call of [pre]
    that raises, and otherwise the refusal of [tc], once its line is
    printed. *)
Definition stops_at {A} (X : Externals) (tc : ToolCall) (pre : list ToolCall)
    (w : World) : Result A * World :=
  match handle_tool_calls X (Some pre) w with
  | (Val _, w1) =>
      (Raise (refusal X tc),
       logged [EPrint ("Tool called: " +:+ tc_name tc)] w1)
  | (Raise e, w1) => (Raise e, w1)
  | (OutOfFuel, w1) => (OutOfFuel, w1)
  end.

(** In the calls of the completion client made from the world [w] to the
    world [w'], no response with the finish reason tool_calls asks for a call
    of [notify] itself.  The call number [i] of the trace is the one whose
    messages are the entry [i] of what was sent. *)
Definition notify_not_asked (X : Externals) (w w' : World) : Prop :=
  forall i ms r tcs tc,
    count_completions (trace w) <= i ->
    sent (trace w') !! i = Some ms ->
    completions_create X i ms = inr r ->
    finish_reason r = "tool_calls" ->
    tool_calls (message r) = Some tcs ->
    In tc tcs ->
    tc_name tc <> "notify".

(** A model that asks for the given tool calls at its first call, replies
    "done" at the next calls, and would ask for [notify] from its sixth call
    on. *)
Definition late_notify_env (tcs : list ToolCall) : Externals :=
  env (answering 200 "ok")
    (fun n _ =>
       match n with
       | 0 => inr (assistant_requests tcs)
       | 1 | 2 | 3 | 4 => inr (assistant_says "done")
       | _ => inr (assistant_requests
                     [ {| tc_id := "call_9"; tc_name := "notify";
                          tc_arguments := Json.text "{'message': 'hi'}" |} ])
       end).

(** ** Further definitions: whole batches, the prompt and the start *)

(** The message a call of one of the two registered tools passes to
    [notify], when its arguments decode to an object that binds to the
    parameters of the function. *)
Definition notice (X : Externals) (tc : ToolCall) : option json :=
  match json_loads X (tc_arguments tc) with
  | inr (JDict kw) =>
      if String.eqb (tc_name tc) "record_user_details" then
        match bind_args record_user_details_params kw with
        | Some [(_, email); (_, name); (_, notes)] =>
            Some (visitor_message X email name notes)
        | _ => None
        end
      else if String.eqb (tc_name tc) "record_unknown_question" then
        match bind_args record_unknown_question_params kw with
        | Some [(_, question)] => Some (question_message X question)
        | _ => None
        end
      else None
  | _ => None
  end.

(** The tool message with the payload recorded ok for a tool call. *)
Definition recorded (X : Externals) (tc : ToolCall) : Message :=
  tool_message X (tc_id tc) recorded_ok.

(** The lines [notify] prints for a response that is not ok. *)
Definition error_lines (response : HttpResponse) : list string :=
  [ "--- TELEGRAM NOTIFICATION ERROR ---";
    "Status Code: " +:+ str_of_Z (status_code response);
    "Response: " +:+ body response;
    "-----------------------------------" ].

(** The block under [if __name__ == "__main__"], up to the object handed to
    the chat interface: the notification of the start, then the
    constructor. *)
Definition main (X : Externals) : M CareerChatBot :=
  notify X (JStr ("Bot starting up! Chat ID: "
                    +:+ str_of_option (TELEGRAM_CHAT_ID X))) >>;
  let! bot := __init__ X in
  ret bot.

(** The text of the PDF: the texts of its pages put together, a page
    without text counting as empty. *)
Definition pages_text (pages : list (option string)) : string :=
  String.concat "" (map (fun t => default "" t) pages).

(** The head of a conversation whose system prompt holds [part]. *)
Definition prompted_with (part : string) (l : list Message) : Prop :=
  exists prompt rest,
    l = {| role := "system"; content := Some prompt;
           tool_calls := None; tool_call_id := None |} :: rest
    /\ contains part prompt.

(** ** Further models for the examples *)

(** A request of [record_user_details] with null for the name. *)
Definition name_null : ToolCall :=
  {| tc_id := "call_1";
     tc_name := "record_user_details";
     tc_arguments := Json.text "{'email': 'a@b.com', 'name': null}" |}.

(** A response that says tool_calls and has no list of tool calls. *)
Definition bare_tool_calls : Response :=
  {| finish_reason := "tool_calls";
     message := {| role := "assistant"; content := None;
                   tool_calls := None; tool_call_id := None |} |}.

(** A model that gives that response, and one that cannot be reached. *)
Definition bare_env : Externals :=
  env (answering 200 "ok") (fun _ _ => inr bare_tool_calls).

Definition no_model_env : Externals :=
  env (answering 200 "ok") (fun _ _ => inl (OtherError "APIConnectionError")).

(** The environment with given outcomes of reading the two files. *)
Definition with_files (X : Externals) (pdf : exn + list (option string))
    (txt : exn + string) : Externals :=
  {| TELEGRAM_TOKEN := TELEGRAM_TOKEN X;
     TELEGRAM_CHAT_ID := TELEGRAM_CHAT_ID X;
     json_loads := json_loads X;
     json_dumps := json_dumps X;
     py_repr := py_repr X;
     requests_post := requests_post X;
     completions_create := completions_create X;
     call_imported := call_imported X;
     pdf_pages := fun _ => pdf;
     read_text := fun _ => txt |}.
(** ** Reasoning about computations *)

Lemma bind_Val {A B} (m : M A) (k : A -> M B) w a w1 :
  m w = (Val a, w1) -> bind m k w = k a w1.
Proof. intros E. unfold bind. now rewrite E. Qed.

Lemma bind_Raise {A B} (m : M A) (k : A -> M B) w e w1 :
  m w = (Raise e, w1) -> bind m k w = (Raise e, w1).
Proof. intros E. unfold bind. now rewrite E. Qed.

Lemma bind_OutOfFuel {A B} (m : M A) (k : A -> M B) w w1 :
  m w = (OutOfFuel, w1) -> bind m k w = (OutOfFuel, w1).
Proof. intros E. unfold bind. now rewrite E. Qed.

Section Rules.

Context (R : World -> World -> Prop) (R_refl : forall w, R w w)
  (R_trans : forall w1 w2 w3, R w1 w2 -> R w2 w3 -> R w1 w3).

Lemma preserves_ret {A} (a : A) : preserves R (ret a).
Proof. intros w. apply R_refl. Qed.

Lemma preserves_raise {A} e : preserves R (@raise A e).
Proof. intros w. apply R_refl. Qed.

Lemma preserves_lift {A} (r : exn + A) : preserves R (lift r).
Proof. destruct r; intros w; apply R_refl. Qed.

Lemma preserves_bind {A B} (m : M A) (k : A -> M B) :
  preserves R m -> (forall a, preserves R (k a)) -> preserves R (bind m k).
Proof.
  intros Hm Hk w. unfold bind. specialize (Hm w).
  destruct (m w) as [[a | e |] w1]; simpl in *; auto.
  eapply R_trans; [exact Hm | apply Hk].
Qed.

Lemma preserves_try_except {A} (m : M A) e (handler : M A) :
  preserves R m -> preserves R handler -> preserves R (try_except m e handler).
Proof.
  intros Hm Hh w. unfold try_except. specialize (Hm w).
  destruct (m w) as [[a | e' |] w1]; simpl in *; auto.
  destruct (exn_eqb e' e); simpl; auto.
  eapply R_trans; [exact Hm | apply Hh].
Qed.

End Rules.

Lemma total_ret {A} (a : A) : total (ret a).
Proof. intros w. discriminate. Qed.

Lemma total_raise {A} e : total (@raise A e).
Proof. intros w. discriminate. Qed.

Lemma total_lift {A} (r : exn + A) : total (lift r).
Proof. destruct r; intros w; discriminate. Qed.

Lemma total_emit e : total (emit e).
Proof. intros w. discriminate. Qed.

Lemma total_bind {A B} (m : M A) (k : A -> M B) :
  total m -> (forall a, total (k a)) -> total (bind m k).
Proof.
  intros Hm Hk w. unfold bind. specialize (Hm w).
  destruct (m w) as [[a | e |] w1]; simpl in *; try discriminate; auto.
  apply Hk.
Qed.

Lemma total_try_except {A} (m : M A) e (handler : M A) :
  total m -> total handler -> total (try_except m e handler).
Proof.
  intros Hm Hh w. unfold try_except. specialize (Hm w).
  destruct (m w) as [[a | e' |] w1]; simpl in *; try discriminate; auto.
  destruct (exn_eqb e' e); simpl; [apply Hh | discriminate].
Qed.

(** *** Traces *)

Lemma sent_app t1 t2 : sent (t1 ++ t2) = sent t1 ++ sent t2.
Proof.
  induction t1 as [| e t1 IH]; simpl; [reflexivity |].
  destruct e; simpl; now rewrite ?IH.
Qed.

Lemma posted_app t1 t2 : posted (t1 ++ t2) = posted t1 ++ posted t2.
Proof.
  induction t1 as [| e t1 IH]; simpl; [reflexivity |].
  destruct e; simpl; now rewrite ?IH.
Qed.

Lemma count_completions_sent t : count_completions t = length (sent t).
Proof.
  induction t as [| e t IH]; simpl; [reflexivity |].
  destruct e; simpl; now rewrite ?IH.
Qed.

Lemma count_posts_posted t : count_posts t = length (posted t).
Proof.
  induction t as [| e t IH]; simpl; [reflexivity |].
  destruct e; simpl; now rewrite ?IH.
Qed.

Lemma count_completions_app t1 t2 :
  count_completions (t1 ++ t2) = count_completions t1 + count_completions t2.
Proof. now rewrite !count_completions_sent, sent_app, length_app. Qed.

Lemma tool_effects_refl w : tool_effects w w.
Proof. split; [reflexivity |]. exists []. now rewrite app_nil_r. Qed.

Lemma tool_effects_trans w1 w2 w3 :
  tool_effects w1 w2 -> tool_effects w2 w3 -> tool_effects w1 w3.
Proof.
  intros [H1 (t1 & E1 & S1)] [H2 (t2 & E2 & S2)]. split; [congruence |].
  exists (t1 ++ t2). split.
  - now rewrite E2, E1, app_assoc.
  - now rewrite sent_app, S1, S2.
Qed.

Lemma tool_effects_sent w w' :
  tool_effects w w' -> sent (trace w') = sent (trace w).
Proof. intros [_ (t & E & S)]. now rewrite E, sent_app, S, app_nil_r. Qed.

Lemma tool_effects_count w w' :
  tool_effects w w' ->
  count_completions (trace w') = count_completions (trace w).
Proof.
  intros H. rewrite !count_completions_sent. f_equal.
  now apply tool_effects_sent.
Qed.

Lemma preserves_emit e : sent [e] = [] -> preserves tool_effects (emit e).
Proof. intros H w. split; [reflexivity |]. now exists [e]. Qed.

Create HintDb app.
#[local] Hint Resolve tool_effects_refl tool_effects_trans : app.

Ltac effects :=
  repeat first
    [ solve [auto 1 with app]
    | apply preserves_ret; auto with app
    | apply preserves_raise; auto with app
    | apply preserves_lift; auto with app
    | apply preserves_emit; reflexivity
    | apply preserves_bind; [solve [eauto with app] .. | | intros ?]
    | apply preserves_try_except; [solve [eauto with app] .. | | ]
    | progress cbv zeta
    | match goal with
      | |- preserves _ (match ?x with _ => _ end) => destruct x
      | |- preserves _ (if ?x then _ else _) => destruct x
      end ].

Ltac totality :=
  repeat first
    [ solve [auto 1 with app]
    | apply total_ret
    | apply total_raise
    | apply total_lift
    | apply total_emit
    | apply total_bind; [| intros ?]
    | apply total_try_except
    | progress cbv zeta
    | match goal with
      | |- total (match ?x with _ => _ end) => destruct x
      | |- total (if ?x then _ else _) => destruct x
      end ].

Section AppFacts.

Context (X : Externals).

Lemma preserves_post url data : preserves tool_effects (post X url data).
Proof.
  intros w. unfold post.
  destruct (requests_post X _ url data); simpl;
    (split; [reflexivity |]); now exists [EPost url data].
Qed.

Lemma total_post url data : total (post X url data).
Proof.
  intros w. unfold post. destruct (requests_post X _ url data); discriminate.
Qed.

Hint Resolve preserves_post total_post : app.

Lemma preserves_notify message : preserves tool_effects (notify X message).
Proof. unfold notify, print. effects. Qed.

Lemma total_notify message : total (notify X message).
Proof. unfold notify, print. totality. Qed.

Lemma preserves___init__ : preserves tool_effects (__init__ X).
Proof. unfold __init__, print. effects. Qed.

Lemma total___init__ : total (__init__ X).
Proof. unfold __init__, print. totality. Qed.

Hint Resolve preserves_notify total_notify preserves___init__ total___init__
  : app.

Lemma preserves_call tool_fn args : preserves tool_effects (call X tool_fn args).
Proof. unfold call, record_user_details, record_unknown_question. effects. Qed.

Lemma total_call tool_fn args : total (call X tool_fn args).
Proof. unfold call, record_user_details, record_unknown_question. totality. Qed.

Hint Resolve preserves_call total_call : app.

Lemma preserves_handle_tool_call tc :
  preserves tool_effects (handle_tool_call X tc).
Proof. unfold handle_tool_call, print. effects. Qed.

Lemma total_handle_tool_call tc : total (handle_tool_call X tc).
Proof. unfold handle_tool_call, print. totality. Qed.

Hint Resolve preserves_handle_tool_call total_handle_tool_call : app.

Lemma preserves_handle_each tcs results :
  preserves tool_effects (handle_each X tcs results).
Proof.
  revert results. induction tcs as [| tc tcs IH]; intros results; simpl; effects.
Qed.

Lemma total_handle_each tcs results : total (handle_each X tcs results).
Proof.
  revert results. induction tcs as [| tc tcs IH]; intros results; simpl; totality.
Qed.

Lemma preserves_handle_tool_calls tool_calls :
  preserves tool_effects (handle_tool_calls X tool_calls).
Proof.
  destruct tool_calls; simpl; [apply preserves_handle_each | effects].
Qed.

Lemma total_handle_tool_calls tool_calls :
  total (handle_tool_calls X tool_calls).
Proof. destruct tool_calls; simpl; [apply total_handle_each | totality]. Qed.

End AppFacts.

Section LoopFacts.
Context (X : Externals).

Lemma bind_inv_Val {A B} (m : M A) (k : A -> M B) w b w' :
  bind m k w = (Val b, w') ->
  exists a w1, m w = (Val a, w1) /\ k a w1 = (Val b, w').
Proof.
  unfold bind. destruct (m w) as [[a | e |] w1]; try discriminate.
  intros H. now exists a, w1.
Qed.

Lemma handle_tool_call_answers tc w m w' :
  handle_tool_call X tc w = (Val m, w') -> answers tc m.
Proof.
  unfold handle_tool_call. intros H.
  apply bind_inv_Val in H as (_ & w1 & _ & H).
  apply bind_inv_Val in H as (args & w2 & _ & H).
  apply bind_inv_Val in H as (result & w3 & _ & H).
  apply bind_inv_Val in H as (c & w4 & _ & H).
  injection H as <- _. now repeat split.
Qed.

Lemma handle_each_answers tcs rs w out w' :
  handle_each X tcs rs w = (Val out, w') ->
  exists results, out = rs ++ results /\ Forall2 answers tcs results.
Proof.
  revert rs w. induction tcs as [| tc tcs IH]; intros rs w; simpl.
  - intros [= <- _]. exists []. split; [now rewrite app_nil_r | constructor].
  - intros H. apply bind_inv_Val in H as (m & w1 & Hm & H).
    apply IH in H as (results & -> & HF).
    exists (m :: results). split.
    + now rewrite <- app_assoc.
    + constructor; [| exact HF]. eapply handle_tool_call_answers, Hm.
Qed.

Lemma handle_tool_calls_answers tool_calls w out w' :
  handle_tool_calls X tool_calls w = (Val out, w') ->
  exists tcs, tool_calls = Some tcs /\ Forall2 answers tcs out.
Proof.
  destruct tool_calls as [tcs |]; simpl; [| discriminate].
  intros H. apply handle_each_answers in H as (results & -> & HF).
  now exists tcs.
Qed.

(** One iteration of the loop, when [messages] holds [ms]. *)
Lemma chat_loop_step fuel messages w ms :
  heap w !! messages = Some ms ->
  chat_loop X (S fuel) messages w =
    match completions_create X (count_completions (trace w)) ms with
    | inl e => (Raise e, called ms w)
    | inr r =>
        if String.eqb (finish_reason r) "tool_calls" then
          match handle_tool_calls X (tool_calls (message r)) (called ms w) with
          | (Val results, w2) =>
              chat_loop X fuel messages
                (extended messages (ms ++ message r :: results) w2)
          | (Raise e, w2) => (Raise e, w2)
          | (OutOfFuel, w2) => (OutOfFuel, w2)
          end
        else (Val (content (message r)), called ms w)
    end.
Proof.
  intros Hms. simpl. unfold create, bind at 1 2, read_list. rewrite Hms.
  fold (called ms w).
  destruct (completions_create X _ ms) as [e | r]; [reflexivity |].
  destruct (String.eqb (finish_reason r) "tool_calls"); [| reflexivity].
  unfold bind at 1.
  pose proof (preserves_handle_tool_calls X (tool_calls (message r)) (called ms w))
    as [Hheap _].
  destruct (handle_tool_calls X _ (called ms w)) as [[results | e |] w2];
    try reflexivity.
  simpl in Hheap.
  unfold list_append, list_extend, bind. rewrite Hheap, Hms. simpl.
  rewrite list_lookup_insert_eq by (eapply lookup_lt_Some, Hms).
  unfold extended. rewrite list_insert_insert_eq, <- app_assoc, Hheap. reflexivity.
Qed.
End LoopFacts.

Section ToolRuns.
Context (X : Externals).

Lemma logged_logged t1 t2 w : logged t2 (logged t1 w) = logged (t1 ++ t2) w.
Proof. unfold logged. simpl. now rewrite app_assoc. Qed.

Lemma emit_run e w : emit e w = (Val tt, logged [e] w).
Proof. reflexivity. Qed.

Lemma post_run url data w :
  post X url data w =
    match requests_post X (count_posts (trace w)) url data with
    | inl e => (Raise e, logged [EPost url data] w)
    | inr r => (Val r, logged [EPost url data] w)
    end.
Proof. reflexivity. Qed.

(** [notify] posts once; with a response it prints the error log of the
    response and returns the status code, and an exception of the transport
    goes on to the caller. *)
Lemma notify_run message w :
  notify X message w =
    match requests_post X (count_posts (trace w)) (telegram_url X)
            (notification X message) with
    | inl e => (Raise e, logged [EPost (telegram_url X) (notification X message)] w)
    | inr response =>
        (Val (VJson (JInt (status_code response))),
         logged (EPost (telegram_url X) (notification X message)
                   :: error_log response) w)
    end.
Proof.
  unfold notify. cbv zeta. fold (notification X message).
  unfold bind at 1. rewrite post_run.
  destruct (requests_post X _ _ _) as [e | response]; [reflexivity |].
  unfold error_log. destruct (ok response); simpl.
  - reflexivity.
  - unfold bind, print. rewrite !emit_run. unfold ret.
    rewrite !logged_logged. reflexivity.
Qed.

Lemma record_user_details_run email name notes w :
  record_user_details X email name notes w =
    let message :=
      JStr ("New visitor ➜ " +:+ py_str (py_repr X) name
              +:+ ", Email: " +:+ py_str (py_repr X) email
              +:+ ", Notes: " +:+ py_str (py_repr X) notes) in
    match notify X message w with
    | (Val _, w1) => (Val (VJson recorded_ok), w1)
    | (Raise e, w1) => (Raise e, w1)
    | (OutOfFuel, w1) => (OutOfFuel, w1)
    end.
Proof. reflexivity. Qed.

Lemma record_unknown_question_run question w :
  record_unknown_question X question w =
    let message :=
      JStr ("Unknown question logged ➜ " +:+ py_str (py_repr X) question) in
    match notify X message w with
    | (Val _, w1) => (Val (VJson recorded_ok), w1)
    | (Raise e, w1) => (Raise e, w1)
    | (OutOfFuel, w1) => (OutOfFuel, w1)
    end.
Proof. reflexivity. Qed.

(** One tool call: the line printed, the arguments decoded, the name looked
    up among the globals, the call, and the result serialised. *)
Lemma handle_tool_call_run tc w :
  handle_tool_call X tc w =
    let w1 := logged [EPrint ("Tool called: " +:+ tc_name tc)] w in
    match json_loads X (tc_arguments tc) with
    | inl e => (Raise e, w1)
    | inr args =>
        match call X (globals_get (tc_name tc)) args w1 with
        | (Val (VJson j), w2) => (Val (tool_message X (tc_id tc) j), w2)
        | (Val (VObject _), w2) => (Raise TypeError, w2)
        | (Raise e, w2) => (Raise e, w2)
        | (OutOfFuel, w2) => (OutOfFuel, w2)
        end
    end.
Proof.
  unfold handle_tool_call. cbv zeta. unfold bind at 1, print. rewrite emit_run.
  unfold bind at 1. destruct (json_loads X (tc_arguments tc)) as [e | args];
    [reflexivity |].
  simpl. unfold bind at 1.
  destruct (call X _ args _) as [[[j | cls] | e |] w2]; reflexivity.
Qed.

Lemma handle_one tc w :
  handle_tool_calls X (Some [tc]) w =
    match handle_tool_call X tc w with
    | (Val m, w1) => (Val [m], w1)
    | (Raise e, w1) => (Raise e, w1)
    | (OutOfFuel, w1) => (OutOfFuel, w1)
    end.
Proof. reflexivity. Qed.

Lemma invoked_app t1 t2 : invoked (t1 ++ t2) = invoked t1 ++ invoked t2.
Proof.
  induction t1 as [| e t1 IH]; simpl; [reflexivity |].
  destruct e; simpl; now rewrite ?IH.
Qed.

Lemma printed_app t1 t2 : printed (t1 ++ t2) = printed t1 ++ printed t2.
Proof.
  induction t1 as [| e t1 IH]; simpl; [reflexivity |].
  destruct e; simpl; now rewrite ?IH.
Qed.

Lemma posted_error_log response : posted (error_log response) = [].
Proof. unfold error_log. now destruct (ok response). Qed.

Lemma invoked_error_log response : invoked (error_log response) = [].
Proof. unfold error_log. now destruct (ok response). Qed.

Lemma sent_error_log response : sent (error_log response) = [].
Proof. unfold error_log. now destruct (ok response). Qed.

End ToolRuns.

Lemma count_posts_app t1 t2 :
  count_posts (t1 ++ t2) = count_posts t1 + count_posts t2.
Proof. now rewrite !count_posts_posted, posted_app, length_app. Qed.

Lemma count_posts_logged t w :
  posted t = [] -> count_posts (trace (logged t w)) = count_posts (trace w).
Proof.
  intros H. simpl. rewrite count_posts_app, (count_posts_posted t), H. simpl. lia.
Qed.
Section Dispatch.
Context (X : Externals).

(** A tool call that reaches one of the three functions of the module. *)
Lemma handle_module_function w tc fn g kw bound message result :
  tc_name tc = fn ->
  globals_get fn = Some g ->
  json_loads X (tc_arguments tc) = inr (JDict kw) ->
  (forall w1,
     call X (Some g) (JDict kw) w1 =
       match notify X message (logged [EInvoke fn bound] w1) with
       | (Val v, w2) => (Val (VJson (result v)), w2)
       | (Raise e, w2) => (Raise e, w2)
       | (OutOfFuel, w2) => (OutOfFuel, w2)
       end) ->
  handle_tool_call X tc w =
    match requests_post X (count_posts (trace w)) (telegram_url X)
            (notification X message) with
    | inl e => (Raise e, logged (dispatch_events X fn bound message) w)
    | inr response =>
        (Val (tool_message X (tc_id tc)
                (result (VJson (JInt (status_code response))))),
         logged (dispatch_events X fn bound message ++ error_log response) w)
    end.
Proof.
  intros Hfn Hg Hargs Hcall.
  rewrite handle_tool_call_run, Hargs, Hfn, Hg. cbv zeta.
  rewrite Hcall, notify_run, !logged_logged.
  rewrite count_posts_logged by reflexivity.
  destruct (requests_post X _ _ _) as [e | response];
    rewrite ?logged_logged; reflexivity.
Qed.

Lemma handle_record_user_details w tc kw email name notes :
  tc_name tc = "record_user_details" ->
  json_loads X (tc_arguments tc) = inr (JDict kw) ->
  bind_args record_user_details_params kw =
    Some [("email", email); ("name", name); ("notes", notes)] ->
  let bound := [("email", email); ("name", name); ("notes", notes)] in
  let message := visitor_message X email name notes in
  handle_tool_call X tc w =
    match requests_post X (count_posts (trace w)) (telegram_url X)
            (notification X message) with
    | inl e =>
        (Raise e, logged (dispatch_events X "record_user_details" bound message) w)
    | inr response =>
        (Val (tool_message X (tc_id tc) recorded_ok),
         logged (dispatch_events X "record_user_details" bound message
                   ++ error_log response) w)
    end.
Proof.
  intros Hfn Hargs Hbind bound message.
  apply (handle_module_function w tc "record_user_details" GRecordUserDetails
           kw bound message (fun _ => recorded_ok)); auto.
  intros w1. cbn [call]. rewrite Hbind. reflexivity.
Qed.

Lemma handle_record_unknown_question w tc kw question :
  tc_name tc = "record_unknown_question" ->
  json_loads X (tc_arguments tc) = inr (JDict kw) ->
  bind_args record_unknown_question_params kw = Some [("question", question)] ->
  let bound := [("question", question)] in
  let message := question_message X question in
  handle_tool_call X tc w =
    match requests_post X (count_posts (trace w)) (telegram_url X)
            (notification X message) with
    | inl e =>
        (Raise e,
         logged (dispatch_events X "record_unknown_question" bound message) w)
    | inr response =>
        (Val (tool_message X (tc_id tc) recorded_ok),
         logged (dispatch_events X "record_unknown_question" bound message
                   ++ error_log response) w)
    end.
Proof.
  intros Hfn Hargs Hbind bound message.
  apply (handle_module_function w tc "record_unknown_question"
           GRecordUnknownQuestion kw bound message (fun _ => recorded_ok)); auto.
  intros w1. cbn [call]. rewrite Hbind. reflexivity.
Qed.

Lemma handle_notify w tc kw message :
  tc_name tc = "notify" ->
  json_loads X (tc_arguments tc) = inr (JDict kw) ->
  bind_args notify_params kw = Some [("message", message)] ->
  handle_tool_call X tc w =
    match requests_post X (count_posts (trace w)) (telegram_url X)
            (notification X message) with
    | inl e =>
        (Raise e, logged (dispatch_events X "notify" [("message", message)] message) w)
    | inr response =>
        (Val (tool_message X (tc_id tc) (JInt (status_code response))),
         logged (dispatch_events X "notify" [("message", message)] message
                   ++ error_log response) w)
    end.
Proof.
  intros Hfn Hargs Hbind.
  apply (handle_module_function w tc "notify" GNotify kw [("message", message)]
           message (fun v => match v with VJson j => j | VObject _ => JNull end));
    auto.
  intros w1. cbn [call]. rewrite Hbind. unfold bind. rewrite emit_run.
  rewrite notify_run. destruct (requests_post X _ _ _); reflexivity.
Qed.

End Dispatch.

Section ChatFacts.
Context (X : Externals).

(** [chat] reads the history, makes the new list and enters the loop. *)
Lemma chat_run fuel self msg history w h :
  heap w !! history = Some h ->
  chat X fuel self msg history w =
    chat_loop X fuel (length (heap w))
      (allocated (first_messages self h msg) w).
Proof.
  intros Hh. unfold chat, bind at 1, read_list. rewrite Hh. reflexivity.
Qed.

Lemma chat_no_history fuel self msg history w :
  heap w !! history = None ->
  chat X fuel self msg history w = (Raise TypeError, w).
Proof.
  intros Hh. unfold chat, bind at 1, read_list. rewrite Hh. reflexivity.
Qed.

Lemma allocated_lookup l w : heap (allocated l w) !! length (heap w) = Some l.
Proof. simpl. now rewrite lookup_app_r, Nat.sub_diag by lia. Qed.

Lemma allocated_old l w i x :
  heap w !! i = Some x -> heap (allocated l w) !! i = Some x.
Proof. intros H. simpl. now apply lookup_app_l_Some. Qed.

End ChatFacts.
Section LoopProps.
Context (X : Externals).

Lemma chat_loop_no_list fuel messages w :
  heap w !! messages = None ->
  chat_loop X (S fuel) messages w = (Raise TypeError, w).
Proof.
  intros H. simpl. unfold create, bind at 1 2, read_list. now rewrite H.
Qed.

Lemma extended_lookup messages ms l w :
  heap w !! messages = Some ms ->
  heap (extended messages l w) !! messages = Some l.
Proof.
  intros H. simpl. apply list_lookup_insert_eq. eapply lookup_lt_Some, H.
Qed.

(** The loop writes to the list [messages] and to no other. *)
Lemma chat_loop_heap fuel messages w :
  exists l, heap (snd (chat_loop X fuel messages w)) = <[messages := l]> (heap w).
Proof.
  revert w. induction fuel as [| fuel IH]; intros w.
  - destruct (heap w !! messages) as [ms |] eqn:Hms.
    + exists ms. simpl. now rewrite list_insert_id.
    + exists []. simpl. rewrite list_insert_ge; [reflexivity |].
      now apply lookup_ge_None.
  - destruct (heap w !! messages) as [ms |] eqn:Hms.
    + rewrite (chat_loop_step X fuel messages w ms Hms).
      assert (Hsame : exists l, heap w = <[messages := l]> (heap w))
        by (exists ms; now rewrite list_insert_id).
      destruct (completions_create X _ ms) as [e | r]; [exact Hsame |].
      destruct (String.eqb _ _); [| exact Hsame].
      pose proof (preserves_handle_tool_calls X (tool_calls (message r))
                    (called ms w)) as [Hheap _].
      destruct (handle_tool_calls X _ _) as [[results | e |] w2];
        simpl in Hheap |- *; rewrite ?Hheap; try exact Hsame.
      destruct (IH (extended messages (ms ++ message r :: results) w2))
        as [l Hl].
      exists l. rewrite Hl. simpl. now rewrite Hheap, list_insert_insert_eq.
    + rewrite chat_loop_no_list by exact Hms. exists []. simpl.
      rewrite list_insert_ge; [reflexivity |]. now apply lookup_ge_None.
Qed.

(** More fuel does not change an outcome that was reached. *)
Lemma chat_loop_more_fuel fuel k messages w :
  fst (chat_loop X fuel messages w) <> OutOfFuel ->
  chat_loop X (fuel + k) messages w = chat_loop X fuel messages w.
Proof.
  revert w. induction fuel as [| fuel IH]; intros w H.
  - now contradict H.
  - destruct (heap w !! messages) as [ms |] eqn:Hms.
    + change (S fuel + k) with (S (fuel + k)).
      rewrite (chat_loop_step X fuel messages w ms Hms) in H |- *.
      rewrite (chat_loop_step X (fuel + k) messages w ms Hms).
      destruct (completions_create X _ ms) as [e | r]; [reflexivity |].
      destruct (String.eqb _ _); [| reflexivity].
      destruct (handle_tool_calls X _ _) as [[results | e |] w2];
        try reflexivity.
      now apply IH.
    + change (S fuel + k) with (S (fuel + k)).
      now rewrite !chat_loop_no_list.
Qed.

(** With a client that always asks for tool calls the loop returns no
    reply, and when it is cut off it has called the client once for each
    unit of fuel. *)
Lemma chat_loop_goes_on fuel messages w ms :
  always_tool_calls X ->
  heap w !! messages = Some ms ->
  (forall s, fst (chat_loop X fuel messages w) <> Val s)
  /\ (fst (chat_loop X fuel messages w) = OutOfFuel ->
      count_completions (trace (snd (chat_loop X fuel messages w))) =
        count_completions (trace w) + fuel).
Proof.
  intros Halways. revert w ms. induction fuel as [| fuel IH]; intros w ms Hms.
  - simpl. split; [discriminate | lia].
  - rewrite (chat_loop_step X fuel messages w ms Hms).
    destruct (Halways (count_completions (trace w)) ms) as (r & -> & ->).
    simpl String.eqb.
    pose proof (preserves_handle_tool_calls X (tool_calls (message r))
                  (called ms w)) as Heff.
    pose proof (total_handle_tool_calls X (tool_calls (message r))
                  (called ms w)) as Htot.
    destruct (handle_tool_calls X _ _) as [[results | e |] w2]; simpl in *.
    + destruct (IH (extended messages (ms ++ message r :: results) w2)
                  (ms ++ message r :: results)) as [IH1 IH2].
      { simpl. apply list_lookup_insert_eq. destruct Heff as [-> _].
        eapply lookup_lt_Some, Hms. }
      split; [exact IH1 |]. intros Hout. rewrite (IH2 Hout). simpl.
      rewrite (tool_effects_count _ _ Heff). simpl.
      rewrite count_completions_app. simpl. lia.
    + split; discriminate.
    + now contradict Htot.
Qed.

End LoopProps.

Lemma looping_env_loop fuel messages w ms :
  heap w !! messages = Some ms ->
  fst (chat_loop looping_env fuel messages w) = OutOfFuel.
Proof.
  revert w ms. induction fuel as [| fuel IH]; intros w ms Hms; [reflexivity |].
  rewrite (chat_loop_step looping_env fuel messages w ms Hms).
  change (completions_create looping_env (count_completions (trace w)) ms)
    with (@inr exn _ (assistant_requests [ask_what_is_x])).
  change (String.eqb (finish_reason (assistant_requests [ask_what_is_x]))
            "tool_calls") with true.
  cbv iota.
  change (tool_calls (message (assistant_requests [ask_what_is_x])))
    with (Some [ask_what_is_x]).
  rewrite handle_one.
  rewrite (handle_record_unknown_question looping_env _ ask_what_is_x
             [("question", JStr "What is X?")] (JStr "What is X?"))
    by (vm_compute; reflexivity).
  cbv zeta.
  change (requests_post looping_env) with (answering 200 "ok").
  unfold answering at 1. cbv iota.
  eapply IH, extended_lookup. exact Hms.
Qed.

Lemma well_formed_from_app pending ms ms' :
  well_formed_from pending ms = true ->
  well_formed_from pending (ms ++ ms') = well_formed ms'.
Proof.
  revert pending. induction ms as [| m ms IH]; intros pending; simpl.
  - destruct pending; [reflexivity | discriminate].
  - destruct pending as [| id pending].
    + intros [-> H]%andb_true_iff. simpl. now apply IH.
    + intros [-> H]%andb_true_iff. simpl. now apply IH.
Qed.

Lemma answers_is_result_for tc m :
  answers tc m -> is_result_for (tc_id tc) m = true.
Proof.
  intros (Hrole & Hid & _). unfold is_result_for.
  rewrite Hrole, Hid. simpl. apply String.eqb_refl.
Qed.

Lemma answered_well_formed tcs results :
  Forall2 answers tcs results ->
  well_formed_from (map tc_id tcs) results = true.
Proof.
  induction 1 as [| tc m tcs results Hm _ IH]; simpl; [reflexivity |].
  now rewrite (answers_is_result_for _ _ Hm), IH.
Qed.

Lemma well_formed_extended ms a tcs results :
  well_formed ms = true ->
  role a = "assistant" ->
  tool_calls a = Some tcs ->
  Forall2 answers tcs results ->
  well_formed (ms ++ a :: results) = true.
Proof.
  intros Hms Hrole Htcs Hres. unfold well_formed in *.
  rewrite (well_formed_from_app _ _ _ Hms). unfold well_formed. simpl.
  unfold requests. rewrite Hrole, Htcs. simpl.
  now apply answered_well_formed.
Qed.

(** Where the ids of the calls differ, each has exactly one result. *)
Lemma answered_exactly_one tcs results :
  Forall2 answers tcs results ->
  NoDup (map tc_id tcs) ->
  forall tc, In tc tcs ->
    length (filter (fun m => is_result_for (tc_id tc) m = true) results) = 1.
Proof.
  assert (Hnone : forall tcs results id,
            Forall2 answers tcs results -> ~ In id (map tc_id tcs) ->
            filter (fun m => is_result_for id m = true) results = []).
  { clear. induction 1 as [| tc m tcs results Hm _ IH]; intros Hid;
      [reflexivity |].
    simpl in Hid. rewrite filter_cons.
    destruct (decide (is_result_for id m = true)) as [Hyes | _];
      [| apply IH; tauto].
    exfalso. apply Hid. left.
    destruct Hm as (_ & Hm & _). unfold is_result_for in Hyes.
    rewrite Hm in Hyes. apply andb_true_iff in Hyes as [_ Hyes].
    now apply String.eqb_eq in Hyes. }
  induction 1 as [| tc0 m tcs results Hm Hrest IH]; intros Hnd tc Hin;
    [contradiction |].
  simpl in Hnd. apply NoDup_cons in Hnd as [Hnotin Hnd].
  rewrite list_elem_of_In in Hnotin.
  rewrite filter_cons. destruct Hin as [-> | Hin].
  - rewrite decide_True by now apply answers_is_result_for.
    simpl. now rewrite (Hnone _ _ _ Hrest Hnotin).
  - rewrite decide_False; [now apply IH |].
    intros Hyes. apply Hnotin.
    destruct Hm as (_ & Hm & _). unfold is_result_for in Hyes.
    rewrite Hm in Hyes. apply andb_true_iff in Hyes as [_ Hyes].
    apply String.eqb_eq in Hyes. rewrite Hyes.
    apply in_map_iff. now exists tc.
Qed.

Section Invariant.
Context (X : Externals).

(** What the loop sends when [messages] holds [ms]. *)
Lemma chat_loop_sends fuel messages w ms :
  assistant_responses X ->
  heap w !! messages = Some ms ->
  well_formed ms = true ->
  exists new,
    sent (trace (snd (chat_loop X fuel messages w))) = sent (trace w) ++ new
    /\ sends ms new
    /\ Forall (fun l => well_formed l = true) new.
Proof.
  intros Hrole. revert w ms. induction fuel as [| fuel IH]; intros w ms Hms Hwf.
  - exists []. simpl. rewrite app_nil_r. repeat constructor.
  - assert (Hone : exists new,
              sent (trace (called ms w)) = sent (trace w) ++ new
              /\ sends ms new /\ Forall (fun l => well_formed l = true) new).
    { exists [ms]. simpl. rewrite sent_app. repeat constructor. exact Hwf. }
    rewrite (chat_loop_step X fuel messages w ms Hms).
    destruct (completions_create X _ ms) as [e | r] eqn:Hr; [exact Hone |].
    destruct (String.eqb _ _); [| exact Hone].
    pose proof (preserves_handle_tool_calls X (tool_calls (message r))
                  (called ms w)) as Heff.
    destruct (handle_tool_calls X _ _) as [[results | e |] w2] eqn:Hcalls;
      simpl in Heff |- *;
      try (destruct Hone as (new & Hnew & H); exists new;
           now rewrite (tool_effects_sent _ _ Heff)).
    apply handle_tool_calls_answers in Hcalls as (tcs & Htcs & Hres).
    destruct (IH (extended messages (ms ++ message r :: results) w2)
                (ms ++ message r :: results)) as (new & Hnew & Hsends & Hall).
    { destruct Heff as [Hheap _]. simpl. rewrite Hheap.
      apply list_lookup_insert_eq. eapply lookup_lt_Some, Hms. }
    { eapply well_formed_extended; eauto. }
    exists (ms :: new). split; [| split].
    + rewrite Hnew. simpl. rewrite (tool_effects_sent _ _ Heff). simpl.
      rewrite sent_app. simpl. now rewrite <- app_assoc.
    + econstructor; eauto.
    + constructor; assumption.
Qed.

End Invariant.
Lemma bind_params_missing params kw p :
  In (p, None) params -> assoc p kw = None -> bind_params params kw = None.
Proof.
  intros Hin Hkw. induction params as [| [q d] params IH]; [contradiction |].
  simpl. destruct Hin as [[= -> ->] | Hin].
  - now rewrite Hkw.
  - rewrite (IH Hin). now destruct (assoc q kw), d.
Qed.

Lemma bind_args_missing params kw p :
  In (p, None) params -> assoc p kw = None -> bind_args params kw = None.
Proof.
  intros Hin Hkw. unfold bind_args.
  destruct (forallb _ kw); [| reflexivity].
  now apply (bind_params_missing params kw p).
Qed.

Lemma bind_args_undeclared params kw k :
  In k (map fst kw) -> ~ In k (map fst params) -> bind_args params kw = None.
Proof.
  intros Hin Hnot. unfold bind_args.
  destruct (forallb _ kw) eqn:Hall; [| reflexivity].
  exfalso. apply Hnot.
  apply in_map_iff in Hin as ([k' v] & <- & Hin).
  rewrite forallb_forall in Hall. specialize (Hall _ Hin).
  apply existsb_exists in Hall as (q & Hq & Heq).
  apply String.eqb_eq in Heq. simpl in Heq. now rewrite Heq.
Qed.

Section Failures.
Context (X : Externals).

(** A tool call that raises makes [handle_tool_calls] raise, wherever it
    stands among the calls. *)
Lemma handle_each_fails tcs tc e :
  In tc tcs ->
  (forall w, fst (handle_tool_call X tc w) = Raise e) ->
  forall results w, exists e', fst (handle_each X tcs results w) = Raise e'.
Proof.
  intros Hin Hfails. induction tcs as [| tc0 tcs IH]; [contradiction |].
  intros results w. simpl. unfold bind.
  pose proof (total_handle_tool_call X tc0 w) as Htot.
  destruct Hin as [-> | Hin].
  - specialize (Hfails w).
    destruct (handle_tool_call X tc w) as [[m | e' |] w1]; simpl in Hfails;
      try discriminate.
    now exists e'.
  - destruct (handle_tool_call X tc0 w) as [[m | e' |] w1].
    + now apply IH.
    + now exists e'.
    + now contradict Htot.
Qed.

(** An iteration in which [handle_tool_calls] raises ends the turn: the
    exception is the outcome of the loop, after the one call of the client,
    and the list of messages is as it was. *)
Lemma chat_loop_fails fuel messages w ms r e :
  heap w !! messages = Some ms ->
  completions_create X (count_completions (trace w)) ms = inr r ->
  finish_reason r = "tool_calls" ->
  fst (handle_tool_calls X (tool_calls (message r)) (called ms w)) = Raise e ->
  let out := chat_loop X (S fuel) messages w in
  fst out = Raise e
  /\ count_completions (trace (snd out)) = S (count_completions (trace w))
  /\ heap (snd out) = heap w.
Proof.
  intros Hms Hr Hfinish Hcalls. cbv zeta.
  rewrite (chat_loop_step X fuel messages w ms Hms), Hr, Hfinish.
  simpl String.eqb. cbv iota.
  pose proof (preserves_handle_tool_calls X (tool_calls (message r))
                (called ms w)) as Heff.
  destruct (handle_tool_calls X _ _) as [[results | e' |] w2];
    simpl in Hcalls; try discriminate.
  injection Hcalls as ->. simpl in Heff |- *.
  split; [reflexivity |]. split.
  - rewrite (tool_effects_count _ _ Heff). simpl.
    rewrite count_completions_app. simpl. lia.
  - now destruct Heff as [-> _].
Qed.

Lemma handle_unbound tc w :
  callable (tc_name tc) = false ->
  fst (handle_tool_call X tc w) = Raise (refusal X tc).
Proof.
  unfold callable, refusal. intros Hname. rewrite handle_tool_call_run. cbv zeta.
  destruct (json_loads X (tc_arguments tc)) as [e | args]; [reflexivity |].
  destruct (globals_get (tc_name tc)) as [[] |]; try discriminate; reflexivity.
Qed.

Lemma handle_turned_down spec tc w :
  In spec tools ->
  tc_name tc = fn_name spec ->
  turned_down X spec (tc_arguments tc) ->
  fst (handle_tool_call X tc w) = Raise (refusal X tc).
Proof.
  intros Hspec Hname. unfold turned_down, refusal.
  rewrite handle_tool_call_run. cbv zeta.
  destruct (json_loads X (tc_arguments tc)) as [e | args]; [reflexivity |].
  intros Hbad. rewrite Hname.
  destruct Hspec as [<- | [<- | []]]; simpl fn_name;
    [ change (globals_get "record_user_details") with (Some GRecordUserDetails)
    | change (globals_get "record_unknown_question")
        with (Some GRecordUnknownQuestion) ];
    (destruct args as [| | | | | | kw]; try reflexivity);
    cbn [call];
    [ assert (Hnone : bind_args record_user_details_params kw = None)
    | assert (Hnone : bind_args record_unknown_question_params kw = None) ];
    try (now rewrite Hnone).
  - destruct Hbad as [(p & Hp & Hkw) | (k & Hk & Hnot)].
    + apply (bind_args_missing _ kw p); [| exact Hkw].
      simpl in Hp. destruct Hp as [<- | []]. simpl. auto.
    + now apply (bind_args_undeclared _ kw k).
  - destruct Hbad as [(p & Hp & Hkw) | (k & Hk & Hnot)].
    + apply (bind_args_missing _ kw p); [| exact Hkw].
      simpl in Hp. destruct Hp as [<- | []]. simpl. auto.
    + now apply (bind_args_undeclared _ kw k).
Qed.

End Failures.

Section Turn.
Context (X : Externals).

(** A response with a tool call that raises ends the turn with an exception
    after that one call of the client; the exception is the one of that tool
    call when it is the first of the response. *)
Lemma failing_call_ends_turn e fuel messages w ms r tcs tc :
  heap w !! messages = Some ms ->
  completions_create X (count_completions (trace w)) ms = inr r ->
  finish_reason r = "tool_calls" ->
  tool_calls (message r) = Some tcs ->
  In tc tcs ->
  (forall w1, fst (handle_tool_call X tc w1) = Raise e) ->
  let out := chat_loop X (S fuel) messages w in
  (exists e', fst out = Raise e')
  /\ count_completions (trace (snd out)) = S (count_completions (trace w))
  /\ heap (snd out) = heap w
  /\ (forall rest, tcs = tc :: rest -> fst out = Raise e).
Proof.
  intros Hms Hr Hfinish Htcs Hin Hfails.
  destruct (handle_each_fails X tcs tc e Hin Hfails [] (called ms w))
    as [e' He'].
  assert (Hcalls : fst (handle_tool_calls X (tool_calls (message r))
                          (called ms w)) = Raise e')
    by now rewrite Htcs.
  destruct (chat_loop_fails X fuel messages w ms r e' Hms Hr Hfinish Hcalls)
    as (Hout & Hcount & Hheap).
  cbv zeta. repeat split; eauto.
  intros rest ->. rewrite Hout. f_equal.
  specialize (Hfails (called ms w)).
  simpl in He'. unfold bind in He'.
  destruct (handle_tool_call X tc (called ms w)) as [[m | e'' |] w1];
    simpl in Hfails; try discriminate.
  simpl in He'. congruence.
Qed.

End Turn.
Lemma unprinted_app t1 t2 : unprinted (t1 ++ t2) = unprinted t1 ++ unprinted t2.
Proof.
  induction t1 as [| e t1 IH]; simpl; [reflexivity |].
  destruct e; simpl; now rewrite ?IH.
Qed.

Lemma sent_unprinted t : sent (unprinted t) = sent t.
Proof. induction t as [| [] t IH]; simpl; now rewrite ?IH. Qed.

Lemma posted_unprinted t : posted (unprinted t) = posted t.
Proof. induction t as [| [] t IH]; simpl; now rewrite ?IH. Qed.

Lemma invoked_unprinted t : invoked (unprinted t) = invoked t.
Proof. induction t as [| [] t IH]; simpl; now rewrite ?IH. Qed.

Lemma same_but_prints_sent w1 w2 :
  same_but_prints w1 w2 -> sent (trace w1) = sent (trace w2).
Proof. intros [_ H]. now rewrite <- sent_unprinted, H, sent_unprinted. Qed.

Lemma same_but_prints_count w1 w2 :
  same_but_prints w1 w2 ->
  count_completions (trace w1) = count_completions (trace w2).
Proof.
  intros H. rewrite !count_completions_sent. f_equal.
  now apply same_but_prints_sent.
Qed.

Lemma related_eq {A} (r1 r2 : Result A) : related eq r1 r2 -> r1 = r2.
Proof. destruct r1, r2; simpl; intros H; congruence || contradiction. Qed.

Lemma agree_ret {A} (Q : A -> A -> Prop) a b : Q a b -> agree Q (ret a) (ret b).
Proof. intros H w1 w2 Hw. now split. Qed.

Lemma agree_raise {A} (Q : A -> A -> Prop) e : agree Q (raise e) (raise e).
Proof. intros w1 w2 Hw. now split. Qed.

Lemma agree_lift {A} (r : exn + A) : agree eq (lift r) (lift r).
Proof. destruct r; [apply agree_raise | now apply agree_ret]. Qed.

Lemma agree_bind {A B} (Q : A -> A -> Prop) (Q' : B -> B -> Prop)
    (m1 m2 : M A) (k1 k2 : A -> M B) :
  agree Q m1 m2 ->
  (forall a b, Q a b -> agree Q' (k1 a) (k2 b)) ->
  agree Q' (bind m1 k1) (bind m2 k2).
Proof.
  intros Hm Hk w1 w2 Hw. unfold bind. destruct (Hm w1 w2 Hw) as [Hr Hw'].
  destruct (m1 w1) as [[a | e1 |] w1'], (m2 w2) as [[b | e2 |] w2'];
    simpl in Hr, Hw'; try contradiction; try (now split).
  now apply Hk.
Qed.

Lemma agree_try_except {A} (Q : A -> A -> Prop) (m1 m2 h1 h2 : M A) e :
  agree Q m1 m2 -> agree Q h1 h2 ->
  agree Q (try_except m1 e h1) (try_except m2 e h2).
Proof.
  intros Hm Hh w1 w2 Hw. unfold try_except. destruct (Hm w1 w2 Hw) as [Hr Hw'].
  destruct (m1 w1) as [[a | e1 |] w1'], (m2 w2) as [[b | e2 |] w2'];
    simpl in Hr, Hw'; try contradiction; try (now split).
  subst e2. destruct (exn_eqb e1 e); [now apply Hh | now split].
Qed.

Lemma agree_emit e : agree eq (emit e) (emit e).
Proof.
  intros w1 w2 [Hh Ht]. split; [reflexivity |]. split; [exact Hh |].
  simpl. now rewrite !unprinted_app, Ht.
Qed.

Lemma agree_print line1 line2 : agree eq (print line1) (print line2).
Proof.
  intros w1 w2 [Hh Ht]. split; [reflexivity |]. split; [exact Hh |].
  simpl. rewrite !unprinted_app, Ht. reflexivity.
Qed.

Lemma agree_weaken {A} (Q Q' : A -> A -> Prop) (m1 m2 : M A) :
  (forall a b, Q a b -> Q' a b) -> agree Q m1 m2 -> agree Q' m1 m2.
Proof.
  intros HQ Hm w1 w2 Hw. destruct (Hm w1 w2 Hw) as [Hr Hw'].
  split; [| exact Hw'].
  destruct (m1 w1) as [[a | e1 |] ?], (m2 w2) as [[b | e2 |] ?]; simpl in *; auto.
Qed.

Create HintDb agree.
#[local] Hint Resolve agree_lift agree_emit agree_print : agree.

Ltac agreement :=
  repeat first
    [ solve [auto 2 with agree]
    | apply agree_ret; reflexivity
    | apply agree_raise
    | apply agree_bind with (Q := fun _ _ => True);
        [solve [auto 2 with agree] | intros ? ? _]
    | apply agree_bind with (Q := eq); [| intros ? ? <-]
    | apply agree_try_except
    | progress cbv zeta
    | match goal with
      | |- agree _ (match ?x with _ => _ end) (match ?x with _ => _ end) =>
          destruct x
      | |- agree _ (if ?x then _ else _) (if ?x then _ else _) => destruct x
      end ].

Section Transports.

Context (X : Externals) (p1 p2 : nat -> string -> Payload -> exn + HttpResponse).
Context (answers1 : transport_answers p1) (answers2 : transport_answers p2).

Let X1 := with_transport X p1.
Let X2 := with_transport X p2.

Lemma agree_notify message :
  agree (fun _ _ => True) (notify X1 message) (notify X2 message).
Proof.
  intros w1 w2 [Hh Ht]. rewrite !notify_run.
  change (requests_post X1) with p1. change (requests_post X2) with p2.
  change (telegram_url X1) with (telegram_url X).
  change (telegram_url X2) with (telegram_url X).
  change (notification X1 message) with (notification X message).
  change (notification X2 message) with (notification X message).
  destruct (answers1 (count_posts (trace w1)) (telegram_url X)
              (notification X message)) as [r1 ->].
  destruct (answers2 (count_posts (trace w2)) (telegram_url X)
              (notification X message)) as [r2 ->].
  split; [exact I |]. split; [exact Hh |]. simpl.
  rewrite !unprinted_app, Ht. simpl. f_equal. f_equal.
  unfold error_log. now destruct (ok r1), (ok r2).
Qed.

Hint Resolve agree_notify : agree.

Lemma agree___init__ : agree eq (__init__ X1) (__init__ X2).
Proof.
  unfold __init__.
  change (pdf_pages X1) with (pdf_pages X). change (pdf_pages X2) with (pdf_pages X).
  change (read_text X1) with (read_text X). change (read_text X2) with (read_text X).
  agreement.
Qed.

Hint Resolve agree___init__ : agree.

Lemma agree_call g args :
  g <> Some GNotify -> agree eq (call X1 g args) (call X2 g args).
Proof.
  intros Hg. unfold call, record_user_details, record_unknown_question.
  change (call_imported X1) with (call_imported X).
  change (call_imported X2) with (call_imported X).
  change (py_repr X1) with (py_repr X). change (py_repr X2) with (py_repr X).
  destruct g as [[] |]; try (now contradict Hg); agreement.
Qed.

Hint Resolve agree_call : agree.

Lemma agree_handle_tool_call tc :
  globals_get (tc_name tc) <> Some GNotify ->
  agree eq (handle_tool_call X1 tc) (handle_tool_call X2 tc).
Proof.
  intros Hg. unfold handle_tool_call, dumps.
  change (json_loads X1) with (json_loads X).
  change (json_loads X2) with (json_loads X).
  change (json_dumps X1) with (json_dumps X).
  change (json_dumps X2) with (json_dumps X).
  agreement.
Qed.

Lemma agree_handle_each tcs results :
  (forall tc, In tc tcs -> globals_get (tc_name tc) <> Some GNotify) ->
  agree eq (handle_each X1 tcs results) (handle_each X2 tcs results).
Proof.
  revert results. induction tcs as [| tc tcs IH]; intros results Hg; simpl.
  - now apply agree_ret.
  - apply agree_bind with (Q := eq).
    + apply agree_handle_tool_call, Hg. now left.
    + intros m ? <-. apply IH. intros tc' Hin. apply Hg. now right.
Qed.

Lemma agree_handle_tool_calls tool_calls :
  (forall tcs tc, tool_calls = Some tcs -> In tc tcs ->
     globals_get (tc_name tc) <> Some GNotify) ->
  agree eq (handle_tool_calls X1 tool_calls) (handle_tool_calls X2 tool_calls).
Proof.
  intros Hg. destruct tool_calls as [tcs |]; simpl; [| apply agree_raise].
  apply agree_handle_each. intros tc. now apply Hg.
Qed.

Lemma agree_list_extend r xs : agree eq (list_extend r xs) (list_extend r xs).
Proof.
  intros w1 w2 [Hh Ht]. unfold list_extend. rewrite Hh.
  destruct (heap w2 !! r); (split; [reflexivity |]); split; simpl; congruence.
Qed.

Lemma agree_create model messages :
  agree (fun r1 r2 =>
           r1 = r2 /\ exists n ms, completions_create X n ms = inr r1)
    (create X1 model messages) (create X2 model messages).
Proof.
  intros w1 w2 Hw. pose proof (same_but_prints_count _ _ Hw) as Hn.
  destruct Hw as [Hh Ht]. unfold create, bind, read_list. rewrite Hh.
  destruct (heap w2 !! messages) as [ms |]; [| now repeat split].
  rewrite Hn.
  change (completions_create X1) with (completions_create X).
  change (completions_create X2) with (completions_create X).
  destruct (completions_create X _ ms) as [e | r] eqn:Hr; simpl.
  - split; [reflexivity |]. split; [exact Hh |]. simpl.
    now rewrite !unprinted_app, Ht.
  - split; [eauto |]. split; [exact Hh |]. simpl.
    now rewrite !unprinted_app, Ht.
Qed.

Lemma notify_by_name tool_name :
  globals_get tool_name = Some GNotify -> tool_name = "notify".
Proof.
  unfold globals_get, module_namespace. cbn [assoc].
  repeat match goal with
         | |- context [String.eqb tool_name ?s] =>
             destruct (String.eqb_spec tool_name s); [now intros [=] |]
         end.
  discriminate.
Qed.

Lemma agree_chat_loop fuel messages :
  notify_not_requested X ->
  agree eq (chat_loop X1 fuel messages) (chat_loop X2 fuel messages).
Proof.
  intros Hnot. induction fuel as [| fuel IH]; simpl.
  - intros w1 w2 Hw. now split.
  - eapply agree_bind; [apply agree_create |].
    intros r ? (<- & n & ms & Hr).
    destruct (String.eqb _ _); [| now apply agree_ret].
    apply agree_bind with (Q := eq).
    + apply agree_handle_tool_calls. intros tcs tc Htcs Hin Hg.
      apply (Hnot n ms r tcs tc Hr Htcs Hin). now apply notify_by_name.
    + intros results ? <-. unfold list_append.
      apply agree_bind with (Q := eq); [apply agree_list_extend |].
      intros _ _ _.
      apply agree_bind with (Q := eq); [apply agree_list_extend |].
      intros _ _ _. exact IH.
Qed.

Lemma agree_chat fuel self msg history :
  notify_not_requested X ->
  agree eq (chat X1 fuel self msg history) (chat X2 fuel self msg history).
Proof.
  intros Hnot w1 w2 Hw. pose proof Hw as [Hh Ht].
  destruct (heap w2 !! history) as [h |] eqn:H2.
  - rewrite (chat_run X1 fuel self msg history w1 h) by now rewrite Hh.
    rewrite (chat_run X2 fuel self msg history w2 h) by exact H2.
    rewrite Hh. apply agree_chat_loop; [exact Hnot |].
    split; simpl; congruence.
  - rewrite (chat_no_history X1 fuel self msg history w1) by now rewrite Hh.
    rewrite (chat_no_history X2 fuel self msg history w2) by exact H2.
    now split.
Qed.

End Transports.

(** ** Batches, bindings and the growth of the conversation *)

Lemma forallb_declared (params : list (string * option json))
    (kw : list (string * json)) :
  (forall k, In k (map fst kw) -> In k (map fst params)) ->
  forallb (fun kv => existsb (String.eqb (fst kv)) (map fst params)) kw = true.
Proof.
  intros H. apply forallb_forall. intros [k v] Hin.
  apply existsb_exists. exists k. split; [| apply String.eqb_refl].
  apply H, in_map_iff. now exists (k, v).
Qed.

(** How the keyword arguments of [record_user_details] bind. *)
Lemma bind_user_details kw email :
  assoc "email" kw = Some email ->
  (forall k, In k (map fst kw) -> In k ["email"; "name"; "notes"]) ->
  bind_args record_user_details_params kw =
    Some [("email", email);
          ("name", default (JStr "Name not provided") (assoc "name" kw));
          ("notes", default (JStr "not provided") (assoc "notes" kw))].
Proof.
  intros Hemail Hkeys. unfold bind_args.
  rewrite (forallb_declared record_user_details_params kw Hkeys).
  simpl. rewrite Hemail.
  now destruct (assoc "name" kw), (assoc "notes" kw).
Qed.

Lemma bind_unknown_question kw question :
  assoc "question" kw = Some question ->
  (forall k, In k (map fst kw) -> In k ["question"]) ->
  bind_args record_unknown_question_params kw = Some [("question", question)].
Proof.
  intros Hq Hkeys. unfold bind_args.
  rewrite (forallb_declared record_unknown_question_params kw Hkeys).
  simpl. now rewrite Hq.
Qed.

Section Batches.

Context (X : Externals).

(** The results so far are carried along unchanged. *)
Lemma handle_each_acc tcs results w :
  handle_each X tcs results w =
    match handle_each X tcs [] w with
    | (Val out, w1) => (Val (results ++ out), w1)
    | (Raise e, w1) => (Raise e, w1)
    | (OutOfFuel, w1) => (OutOfFuel, w1)
    end.
Proof.
  revert results w. induction tcs as [| tc tcs IH]; intros results w; simpl.
  - unfold ret. now rewrite app_nil_r.
  - unfold bind. destruct (handle_tool_call X tc w) as [[m | e |] w1];
      try reflexivity.
    rewrite (IH (results ++ [m])), (IH ([] ++ [m])).
    destruct (handle_each X tcs [] w1) as [[out | e |] w2]; try reflexivity.
    now rewrite <- app_assoc.
Qed.

Lemma handle_each_app tcs1 tcs2 results w :
  handle_each X (tcs1 ++ tcs2) results w =
    match handle_each X tcs1 results w with
    | (Val out, w1) => handle_each X tcs2 out w1
    | (Raise e, w1) => (Raise e, w1)
    | (OutOfFuel, w1) => (OutOfFuel, w1)
    end.
Proof.
  revert results w. induction tcs1 as [| tc tcs1 IH]; intros results w; simpl.
  - reflexivity.
  - unfold bind. destruct (handle_tool_call X tc w) as [[m | e |] w1];
      try reflexivity.
    apply IH.
Qed.

Lemma chat_loop_appends fuel messages w ms :
  heap w !! messages = Some ms ->
  exists new,
    sent (trace (snd (chat_loop X fuel messages w))) = sent (trace w) ++ new
    /\ sends ms new.
Proof.
  revert w ms. induction fuel as [| fuel IH]; intros w ms Hms.
  - exists []. simpl. rewrite app_nil_r. split; constructor.
  - assert (Hone : exists new,
              sent (trace (called ms w)) = sent (trace w) ++ new /\ sends ms new).
    { exists [ms]. simpl. rewrite sent_app. split; constructor. }
    rewrite (chat_loop_step X fuel messages w ms Hms).
    destruct (completions_create X _ ms) as [e | r]; [exact Hone |].
    destruct (String.eqb _ _); [| exact Hone].
    pose proof (preserves_handle_tool_calls X (tool_calls (message r))
                  (called ms w)) as Heff.
    destruct (handle_tool_calls X _ _) as [[results | e |] w2] eqn:Hcalls;
      simpl in Heff |- *;
      try (destruct Hone as (new & Hnew & H); exists new;
           now rewrite (tool_effects_sent _ _ Heff)).
    apply handle_tool_calls_answers in Hcalls as (tcs & Htcs & Hres).
    destruct (IH (extended messages (ms ++ message r :: results) w2)
                (ms ++ message r :: results)) as (new & Hnew & Hsends).
    { destruct Heff as [Hheap _]. simpl. rewrite Hheap.
      apply list_lookup_insert_eq. eapply lookup_lt_Some, Hms. }
    exists (ms :: new). split.
    + rewrite Hnew. simpl. rewrite (tool_effects_sent _ _ Heff). simpl.
      rewrite sent_app. simpl. now rewrite <- app_assoc.
    + econstructor; eauto.
Qed.

End Batches.

(** ** Refused calls and turns without end *)

Section Refusals.

Context (X : Externals).

Lemma handle_unbound_run tc w :
  callable (tc_name tc) = false ->
  handle_tool_call X tc w =
    (Raise (refusal X tc), logged [EPrint ("Tool called: " +:+ tc_name tc)] w).
Proof.
  unfold callable, refusal. intros Hname. rewrite handle_tool_call_run. cbv zeta.
  destruct (json_loads X (tc_arguments tc)) as [e | args]; [reflexivity |].
  destruct (globals_get (tc_name tc)) as [[] |]; try discriminate; reflexivity.
Qed.

Lemma handle_turned_down_run spec tc w :
  In spec tools ->
  tc_name tc = fn_name spec ->
  turned_down X spec (tc_arguments tc) ->
  handle_tool_call X tc w =
    (Raise (refusal X tc), logged [EPrint ("Tool called: " +:+ tc_name tc)] w).
Proof.
  intros Hspec Hname. unfold turned_down, refusal.
  rewrite handle_tool_call_run. cbv zeta.
  destruct (json_loads X (tc_arguments tc)) as [e | args]; [reflexivity |].
  intros Hbad. rewrite Hname.
  destruct Hspec as [<- | [<- | []]]; simpl fn_name;
    [ change (globals_get "record_user_details") with (Some GRecordUserDetails)
    | change (globals_get "record_unknown_question")
        with (Some GRecordUnknownQuestion) ];
    (destruct args as [| | | | | | kw]; try reflexivity);
    cbn [call];
    [ assert (Hnone : bind_args record_user_details_params kw = None)
    | assert (Hnone : bind_args record_unknown_question_params kw = None) ];
    try (now rewrite Hnone).
  - destruct Hbad as [(p & Hp & Hkw) | (k & Hk & Hnot)].
    + apply (bind_args_missing _ kw p); [| exact Hkw].
      simpl in Hp. destruct Hp as [<- | []]. simpl. auto.
    + now apply (bind_args_undeclared _ kw k).
  - destruct Hbad as [(p & Hp & Hkw) | (k & Hk & Hnot)].
    + apply (bind_args_missing _ kw p); [| exact Hkw].
      simpl in Hp. destruct Hp as [<- | []]. simpl. auto.
    + now apply (bind_args_undeclared _ kw k).
Qed.

(** The calls before a refused call are handled, the refused call ends the
    handling, and the calls after it are not begun. *)
Lemma handle_each_stops_at pre tc post w :
  (forall w1,
     handle_tool_call X tc w1 =
       (Raise (refusal X tc),
        logged [EPrint ("Tool called: " +:+ tc_name tc)] w1)) ->
  handle_tool_calls X (Some (pre ++ tc :: post)) w = stops_at X tc pre w.
Proof.
  intros Hrefused. unfold stops_at. simpl. rewrite handle_each_app.
  destruct (handle_each X pre [] w) as [[out | e |] w1]; try reflexivity.
  simpl. unfold bind. now rewrite Hrefused.
Qed.

(** A response with a refused call ends the turn as [stops_at] says. *)
Lemma refused_call_ends_turn fuel messages w ms r tcs tc pre post :
  heap w !! messages = Some ms ->
  completions_create X (count_completions (trace w)) ms = inr r ->
  finish_reason r = "tool_calls" ->
  tool_calls (message r) = Some tcs ->
  (forall w1,
     handle_tool_call X tc w1 =
       (Raise (refusal X tc),
        logged [EPrint ("Tool called: " +:+ tc_name tc)] w1)) ->
  tcs = pre ++ tc :: post ->
  chat_loop X (S fuel) messages w = stops_at X tc pre (called ms w).
Proof.
  intros Hms Hr Hfinish Htcs Hrefused ->.
  rewrite (chat_loop_step X fuel messages w ms Hms), Hr, Hfinish, Htcs.
  simpl String.eqb. cbv iota.
  rewrite (handle_each_stops_at pre tc post (called ms w) Hrefused).
  unfold stops_at.
  pose proof (total_handle_tool_calls X (Some pre) (called ms w)) as Htot.
  destruct (handle_tool_calls X (Some pre) (called ms w)) as [[out | e |] w1];
    try reflexivity.
Qed.

(** With a client that always asks for tool calls, the loop is cut off
    after one call of the client for each unit of fuel, unless the handling
    of the tool calls of a response raised before. *)
Lemma chat_loop_unbounded fuel messages w ms :
  always_tool_calls X ->
  heap w !! messages = Some ms ->
  (fst (chat_loop X fuel messages w) = OutOfFuel
   /\ count_completions (trace (snd (chat_loop X fuel messages w))) =
        count_completions (trace w) + fuel)
  \/ (exists e k,
        k < fuel
        /\ fst (chat_loop X fuel messages w) = Raise e
        /\ fails_handling X e (count_completions (trace w) + k)
             (snd (chat_loop X fuel messages w))).
Proof.
  intros Halways. revert w ms. induction fuel as [| fuel IH]; intros w ms Hms.
  - left. simpl. split; [reflexivity | lia].
  - rewrite (chat_loop_step X fuel messages w ms Hms).
    destruct (Halways (count_completions (trace w)) ms) as (r & Hr & Hfinish).
    rewrite Hr, Hfinish. simpl String.eqb. cbv iota.
    pose proof (preserves_handle_tool_calls X (tool_calls (message r))
                  (called ms w)) as Heff.
    pose proof (total_handle_tool_calls X (tool_calls (message r))
                  (called ms w)) as Htot.
    destruct (handle_tool_calls X _ _) as [[results | e |] w2] eqn:Hcalls;
      cbn [fst snd] in *.
    + assert (Hcount : count_completions (trace w2)
                       = S (count_completions (trace w))).
      { rewrite (tool_effects_count _ _ Heff). simpl.
        rewrite count_completions_app. simpl. lia. }
      destruct (IH (extended messages (ms ++ message r :: results) w2)
                  (ms ++ message r :: results)) as [[Hout Hn] | (e & k & Hk & Hout & Hfail)].
      { simpl. apply list_lookup_insert_eq. destruct Heff as [-> _].
        eapply lookup_lt_Some, Hms. }
      * left. split; [exact Hout |]. rewrite Hn. simpl trace. lia.
      * right. exists e, (S k). split; [lia |]. split; [exact Hout |].
        simpl trace in Hfail. rewrite Hcount in Hfail.
        now replace (count_completions (trace w) + S k)
          with (S (count_completions (trace w)) + k) by lia.
    + right. exists e, 0. split; [lia |]. split; [reflexivity |].
      exists (trace w), ms, r, (called ms w).
      rewrite Nat.add_0_r. repeat split; auto.
    + now contradict Htot.
Qed.

End Refusals.

(** ** Two transports, one turn *)

Lemma same_but_prints_called ms w1 w2 :
  same_but_prints w1 w2 -> same_but_prints (called ms w1) (called ms w2).
Proof.
  intros [Hh Ht]. split; [exact Hh |]. simpl. now rewrite !unprinted_app, Ht.
Qed.

Lemma same_but_prints_extended messages l w1 w2 :
  same_but_prints w1 w2 ->
  same_but_prints (extended messages l w1) (extended messages l w2).
Proof. intros [Hh Ht]. split; simpl; congruence. Qed.

Lemma notify_not_requested_asked X w w' :
  notify_not_requested X -> notify_not_asked X w w'.
Proof. intros H i ms r tcs tc _ _ Hr _ Htcs Hin. exact (H i ms r tcs tc Hr Htcs Hin). Qed.

Section Sent.

Context (X : Externals).

Lemma chat_loop_sent_grows fuel messages w :
  exists new,
    sent (trace (snd (chat_loop X fuel messages w))) = sent (trace w) ++ new.
Proof.
  destruct (heap w !! messages) as [ms |] eqn:Hms.
  - destruct (chat_loop_appends X fuel messages w ms Hms) as (new & Hnew & _).
    now exists new.
  - exists []. rewrite app_nil_r. destruct fuel; [reflexivity |].
    now rewrite chat_loop_no_list.
Qed.

(** The first list an iteration sends is the list [messages] holds. *)
Lemma chat_loop_first_sent fuel messages w ms :
  heap w !! messages = Some ms ->
  sent (trace (snd (chat_loop X (S fuel) messages w)))
    !! count_completions (trace w) = Some ms.
Proof.
  intros Hms.
  assert (H : exists rest,
            sent (trace (snd (chat_loop X (S fuel) messages w)))
            = sent (trace w) ++ ms :: rest).
  { assert (Hone : sent (trace (called ms w)) = sent (trace w) ++ [ms])
      by (simpl; now rewrite sent_app).
    rewrite (chat_loop_step X fuel messages w ms Hms).
    destruct (completions_create X _ ms) as [e | r]; [now exists [] |].
    destruct (String.eqb _ _); [| now exists []].
    pose proof (preserves_handle_tool_calls X (tool_calls (message r))
                  (called ms w)) as Heff.
    apply tool_effects_sent in Heff.
    destruct (handle_tool_calls X _ _) as [[results | e |] w2];
      cbn [fst snd] in *; try (exists []; congruence).
    destruct (chat_loop_sent_grows fuel messages
                (extended messages (ms ++ message r :: results) w2))
      as [new Hnew].
    exists new. rewrite Hnew. simpl trace. rewrite Heff, Hone.
    now rewrite <- app_assoc. }
  destruct H as [rest ->]. rewrite count_completions_sent.
  apply list_lookup_middle. reflexivity.
Qed.

End Sent.

Section OneTurn.

Context (X : Externals) (p1 p2 : nat -> string -> Payload -> exn + HttpResponse).
Context (answers1 : transport_answers p1) (answers2 : transport_answers p2).

Lemma agree_chat_loop_turn fuel messages w1 w2 :
  same_but_prints w1 w2 ->
  notify_not_asked X w1
    (snd (chat_loop (with_transport X p1) fuel messages w1)) ->
  related eq (fst (chat_loop (with_transport X p1) fuel messages w1))
             (fst (chat_loop (with_transport X p2) fuel messages w2))
  /\ same_but_prints (snd (chat_loop (with_transport X p1) fuel messages w1))
                     (snd (chat_loop (with_transport X p2) fuel messages w2)).
Proof.
  revert w1 w2. induction fuel as [| fuel IH]; intros w1 w2 Hw Hnot.
  - now split.
  - pose proof Hw as [Hh Ht].
    pose proof (same_but_prints_count _ _ Hw) as Hn.
    destruct (heap w1 !! messages) as [ms |] eqn:Hms.
    + assert (Hms2 : heap w2 !! messages = Some ms) by now rewrite <- Hh.
      pose proof (chat_loop_first_sent (with_transport X p1) fuel messages w1
                    ms Hms) as Hfirst.
      rewrite (chat_loop_step (with_transport X p1) fuel messages w1 ms Hms)
        in Hnot, Hfirst |- *.
      rewrite (chat_loop_step (with_transport X p2) fuel messages w2 ms Hms2).
      change (completions_create (with_transport X p1))
        with (completions_create X) in *.
      change (completions_create (with_transport X p2))
        with (completions_create X).
      rewrite <- Hn.
      pose proof (same_but_prints_called ms _ _ Hw) as Hcalled.
      destruct (completions_create X (count_completions (trace w1)) ms)
        as [e | r] eqn:Hr; [now split |].
      destruct (String.eqb_spec (finish_reason r) "tool_calls")
        as [Hfinish | _]; [| now split].
      assert (Hnames : forall tcs tc,
                tool_calls (message r) = Some tcs -> In tc tcs ->
                globals_get (tc_name tc) <> Some GNotify).
      { intros tcs tc Htcs Hin Hg. apply notify_by_name in Hg. revert Hg.
        apply (Hnot (count_completions (trace w1)) ms r tcs tc); auto. }
      destruct (agree_handle_tool_calls X p1 p2 answers1 answers2
                  (tool_calls (message r)) Hnames _ _ Hcalled) as [Hres Hw'].
      pose proof (preserves_handle_tool_calls (with_transport X p1)
                    (tool_calls (message r)) (called ms w1)) as Heff.
      apply tool_effects_count in Heff.
      destruct (handle_tool_calls (with_transport X p1) _ (called ms w1))
        as [[results1 | e1 |] w1'],
        (handle_tool_calls (with_transport X p2) _ (called ms w2))
        as [[results2 | e2 |] w2'];
        cbn [fst snd related] in *; try contradiction; try (now split).
      subst results2. apply IH.
      * now apply same_but_prints_extended.
      * intros i ms' r' tcs tc Hi. apply Hnot.
        simpl trace in Hi. rewrite Heff in Hi. simpl in Hi.
        rewrite count_completions_app in Hi. lia.
    + assert (Hms2 : heap w2 !! messages = None) by now rewrite <- Hh.
      rewrite (chat_loop_no_list _ fuel messages w1 Hms),
        (chat_loop_no_list _ fuel messages w2 Hms2).
      now split.
Qed.

Lemma agree_chat_turn fuel self msg history w :
  notify_not_asked X w
    (snd (chat (with_transport X p1) fuel self msg history w)) ->
  related eq (fst (chat (with_transport X p1) fuel self msg history w))
             (fst (chat (with_transport X p2) fuel self msg history w))
  /\ same_but_prints (snd (chat (with_transport X p1) fuel self msg history w))
                     (snd (chat (with_transport X p2) fuel self msg history w)).
Proof.
  destruct (heap w !! history) as [h |] eqn:Hh.
  - rewrite !(chat_run _ fuel self msg history w h Hh). intros Hnot.
    apply agree_chat_loop_turn; [now split | exact Hnot].
  - rewrite !(chat_no_history _ fuel self msg history w Hh). now split.
Qed.

End OneTurn.

(** * The claims *)

Section Claims.

Context (X : Externals).

(** C1, as the code has it.  When the completion client asks for tool calls
    at every call, [chat] never returns a reply and no count of iterations
    stops it.  For every number of iterations it is let run, it either is
    still in the loop after that many calls of the client, or has ended
    before with the exception that the handling of the tool calls of the
    last response raised (or, at once, with the TypeError of a history that is
    no list); it ends in no other way. *)
Theorem chat_has_no_iteration_cap fuel self msg history w :
  always_tool_calls X ->
  let out := chat X fuel self msg history w in
  (forall s, fst out <> Val s)
  /\ (fst out = OutOfFuel ->
      count_completions (trace (snd out)) = count_completions (trace w) + fuel)
  /\ ((fst out = OutOfFuel
       /\ count_completions (trace (snd out)) =
            count_completions (trace w) + fuel)
      \/ (exists e k,
            k < fuel
            /\ fst out = Raise e
            /\ fails_handling X e (count_completions (trace w) + k) (snd out))
      \/ (heap w !! history = None /\ out = (Raise TypeError, w))).
Proof.
  intros Halways. cbv zeta.
  destruct (heap w !! history) as [h |] eqn:Hh.
  - rewrite (chat_run X fuel self msg history w h Hh).
    destruct (chat_loop_goes_on X fuel (length (heap w))
                (allocated (first_messages self h msg) w)
                (first_messages self h msg) Halways (allocated_lookup _ w))
      as [H1 H2].
    split; [exact H1 |]. split; [exact H2 |].
    destruct (chat_loop_unbounded X fuel (length (heap w))
                (allocated (first_messages self h msg) w)
                (first_messages self h msg) Halways (allocated_lookup _ w))
      as [H | H]; [left; exact H | right; left; exact H].
  - rewrite (chat_no_history X fuel self msg history w Hh). simpl.
    split; [discriminate |]. split; [discriminate |]. right. right. now split.
Qed.

(** C2.  With a well-formed history and a client whose responses are
    assistant messages, every message list [chat] sends to the client is well
    formed: each tool call of an assistant message is answered, after that
    message and before anything else, by one tool message with its id, in
    the order of the calls.  The lists sent are the first one and then, for
    each response asking for tool calls, the list before with the response
    message and the results of its calls. *)
Theorem chat_sends_well_formed fuel self msg history w h :
  heap w !! history = Some h ->
  well_formed h = true ->
  assistant_responses X ->
  exists new,
    sent (trace (snd (chat X fuel self msg history w))) = sent (trace w) ++ new
    /\ sends (first_messages self h msg) new
    /\ Forall (fun l => well_formed l = true) new.
Proof.
  intros Hh Hwf Hrole.
  rewrite (chat_run X fuel self msg history w h Hh).
  apply (chat_loop_sends X fuel (length (heap w))
           (allocated (first_messages self h msg) w)
           (first_messages self h msg) Hrole (allocated_lookup _ w)).
  unfold well_formed, first_messages. simpl.
  change (requests (system_message self)) with (@nil string).
  now rewrite (well_formed_from_app [] h [user_message msg] Hwf).
Qed.

(** C3, as the code has it.  At any iteration of the loop, a response with
    a tool call whose name the globals of the module bind to nothing that can
    be called (no binding at all, as for delete_everything, or data) ends the
    turn with an exception: the call is not skipped and the client is not
    called again.  The calls that stand before it in the response are carried
    out first; if one of them raises, its exception ends the turn, and
    otherwise the exception is that of the decoder if the arguments of the
    call do not decode, a TypeError if they do. *)
Theorem unbound_tool_ends_turn fuel messages w ms r tcs tc :
  heap w !! messages = Some ms ->
  completions_create X (count_completions (trace w)) ms = inr r ->
  finish_reason r = "tool_calls" ->
  tool_calls (message r) = Some tcs ->
  In tc tcs ->
  callable (tc_name tc) = false ->
  let out := chat_loop X (S fuel) messages w in
  (exists e, fst out = Raise e)
  /\ count_completions (trace (snd out)) = S (count_completions (trace w))
  /\ heap (snd out) = heap w
  /\ (forall rest, tcs = tc :: rest -> fst out = Raise (refusal X tc))
  /\ (forall pre post,
        tcs = pre ++ tc :: post -> out = stops_at X tc pre (called ms w)).
Proof.
  intros Hms Hr Hfinish Htcs Hin Hname. cbv zeta.
  destruct (failing_call_ends_turn X (refusal X tc) fuel messages w ms r tcs tc
              Hms Hr Hfinish Htcs Hin
              (fun w1 => handle_unbound X tc w1 Hname))
    as (H1 & H2 & H3 & H4).
  repeat (split; [assumption |]).
  intros pre post Hpos.
  apply (refused_call_ends_turn X fuel messages w ms r tcs tc pre post);
    auto.
  intros w1. now apply handle_unbound_run.
Qed.

(** C4, as the code has it.  At any iteration of the loop, a call of a
    registered tool whose arguments do not decode, are no object, lack a
    required name or carry a name the tool does not declare ends the turn
    with an exception, the client not being called again.  The calls that
    stand before it in the response are carried out first; if one of them
    raises, its exception ends the turn, and otherwise the exception is that
    of the decoder if the arguments do not decode, a TypeError if they do.
    The types of the values are not looked at: whatever JSON values the
    arguments give for the email, the name, the notes or the question, the
    function is called with them and its notification is made from them. *)
Theorem turned_down_arguments_end_turn :
  (forall fuel messages w ms r tcs tc spec,
     heap w !! messages = Some ms ->
     completions_create X (count_completions (trace w)) ms = inr r ->
     finish_reason r = "tool_calls" ->
     tool_calls (message r) = Some tcs ->
     In tc tcs ->
     In spec tools ->
     tc_name tc = fn_name spec ->
     turned_down X spec (tc_arguments tc) ->
     let out := chat_loop X (S fuel) messages w in
     (exists e, fst out = Raise e)
     /\ count_completions (trace (snd out)) = S (count_completions (trace w))
     /\ heap (snd out) = heap w
     /\ (forall rest, tcs = tc :: rest -> fst out = Raise (refusal X tc))
     /\ (forall pre post,
           tcs = pre ++ tc :: post -> out = stops_at X tc pre (called ms w)))
  /\ (forall w tc kw email,
        tc_name tc = "record_user_details" ->
        json_loads X (tc_arguments tc) = inr (JDict kw) ->
        assoc "email" kw = Some email ->
        (forall k, In k (map fst kw) -> In k ["email"; "name"; "notes"]) ->
        let name := default (JStr "Name not provided") (assoc "name" kw) in
        let notes := default (JStr "not provided") (assoc "notes" kw) in
        let bound := [("email", email); ("name", name); ("notes", notes)] in
        let message := visitor_message X email name notes in
        handle_tool_call X tc w =
          match requests_post X (count_posts (trace w)) (telegram_url X)
                  (notification X message) with
          | inl e =>
              (Raise e,
               logged (dispatch_events X "record_user_details" bound message) w)
          | inr response =>
              (Val (tool_message X (tc_id tc) recorded_ok),
               logged (dispatch_events X "record_user_details" bound message
                         ++ error_log response) w)
          end)
  /\ (forall w tc kw question,
        tc_name tc = "record_unknown_question" ->
        json_loads X (tc_arguments tc) = inr (JDict kw) ->
        assoc "question" kw = Some question ->
        (forall k, In k (map fst kw) -> In k ["question"]) ->
        let bound := [("question", question)] in
        let message := question_message X question in
        handle_tool_call X tc w =
          match requests_post X (count_posts (trace w)) (telegram_url X)
                  (notification X message) with
          | inl e =>
              (Raise e,
               logged (dispatch_events X "record_unknown_question" bound
                         message) w)
          | inr response =>
              (Val (tool_message X (tc_id tc) recorded_ok),
               logged (dispatch_events X "record_unknown_question" bound message
                         ++ error_log response) w)
          end).
Proof.
  split; [| split].
  - intros fuel messages w ms r tcs tc spec Hms Hr Hfinish Htcs Hin Hspec Hname
      Hbad. cbv zeta.
    destruct (failing_call_ends_turn X (refusal X tc) fuel messages w ms r tcs
                tc Hms Hr Hfinish Htcs Hin
                (fun w1 => handle_turned_down X spec tc w1 Hspec Hname Hbad))
      as (H1 & H2 & H3 & H4).
    repeat (split; [assumption |]).
    intros pre post Hpos.
    apply (refused_call_ends_turn X fuel messages w ms r tcs tc pre post);
      auto.
    intros w1. now apply (handle_turned_down_run X spec).
  - intros w tc kw email Hname Hargs Hemail Hkeys. cbv zeta.
    apply (handle_record_user_details X w tc kw); auto.
    now apply bind_user_details.
  - intros w tc kw question Hname Hargs Hq Hkeys. cbv zeta.
    apply (handle_record_unknown_question X w tc kw); auto.
    now apply bind_unknown_question.
Qed.

(** C5.  When the completion client answers the first call with a final
    message (a finish reason other than tool_calls), [chat] returns the
    content of that message as it is, and the call of the client is all that
    happened: nothing was printed, posted or invoked. *)
Theorem chat_returns_first_final fuel self msg history w h r :
  heap w !! history = Some h ->
  let ms := first_messages self h msg in
  completions_create X (count_completions (trace w)) ms = inr r ->
  finish_reason r <> "tool_calls" ->
  let out := chat X (S fuel) self msg history w in
  fst out = Val (content (message r))
  /\ trace (snd out) = trace w ++ [ECompletion "llama3.2" ms]
  /\ invoked (trace (snd out)) = invoked (trace w).
Proof.
  intros Hh ms Hr Hfinish out.
  assert (E : out = (Val (content (message r)), called ms (allocated ms w))).
  { subst out. rewrite (chat_run X _ _ _ _ _ h Hh). fold ms.
    rewrite (chat_loop_step X fuel _ _ ms) by apply allocated_lookup.
    simpl trace at 1. rewrite Hr.
    apply String.eqb_neq in Hfinish. now rewrite Hfinish. }
  rewrite E. simpl.
  split; [reflexivity | split; [reflexivity |]].
  now rewrite invoked_app, app_nil_r.
Qed.


(** C7, as the code has it.  Whenever the transport gives a response,
    whatever its status, [notify] does not raise: it posts the request,
    prints the status code and the body when the response is not ok, and
    returns the status code.  And a turn in which no response of the model
    asks for a call of [notify] itself ends alike under any other transport
    that always gives a response: the same outcome, the same lists sent to
    the client and the same notifications posted. *)
Theorem notify_tolerates_http_failure :
  (forall msg w response,
     requests_post X (count_posts (trace w)) (telegram_url X)
       (notification X msg) = inr response ->
     notify X msg w =
       (Val (VJson (JInt (status_code response))),
        logged (EPost (telegram_url X) (notification X msg)
                  :: error_log response) w)
     /\ (ok response = false ->
         printed (error_log response) =
           [ "--- TELEGRAM NOTIFICATION ERROR ---";
             "Status Code: " +:+ str_of_Z (status_code response);
             "Response: " +:+ body response;
             "-----------------------------------" ]))
  /\ (forall p1 p2 fuel self msg history w,
        transport_answers p1 ->
        transport_answers p2 ->
        let out1 := chat (with_transport X p1) fuel self msg history w in
        let out2 := chat (with_transport X p2) fuel self msg history w in
        notify_not_asked X w (snd out1) ->
        fst out1 = fst out2
        /\ sent (trace (snd out1)) = sent (trace (snd out2))
        /\ posted (trace (snd out1)) = posted (trace (snd out2))).
Proof.
  split.
  - intros msg w response Hpost. split.
    + now rewrite notify_run, Hpost.
    + intros Hok. unfold error_log. now rewrite Hok.
  - intros p1 p2 fuel self msg history w H1 H2. cbv zeta. intros Hnot.
    destruct (agree_chat_turn X p1 p2 H1 H2 fuel self msg history w Hnot)
      as [Hr Hw].
    split; [now apply related_eq |]. split.
    + now apply same_but_prints_sent.
    + destruct Hw as [_ Hw].
      now rewrite <- posted_unprinted, Hw, posted_unprinted.
Qed.

(** C8.  A knowledge file that is not found does not stop the constructor:
    with the PDF missing [linkedin] is the placeholder text, with the summary
    file missing [summary] is, a line about it is printed, and the constructor
    returns the object (the other file being read or missing as well). *)
Theorem init_survives_missing_files w :
  (pdf_pages X pdf_path = inl FileNotFoundError ->
   (read_text X summary_path = inl FileNotFoundError
    \/ exists s, read_text X summary_path = inr s) ->
   exists bot w',
     __init__ X w = (Val bot, w')
     /\ linkedin bot = linkedin_placeholder
     /\ In ("Error: Could not find " +:+ pdf_path) (printed (trace w')))
  /\ (read_text X summary_path = inl FileNotFoundError ->
      (pdf_pages X pdf_path = inl FileNotFoundError
       \/ exists pages, pdf_pages X pdf_path = inr pages) ->
      exists bot w',
        __init__ X w = (Val bot, w')
        /\ summary bot = summary_placeholder
        /\ In ("Error: Could not find " +:+ summary_path) (printed (trace w'))).
Proof.
  split.
  - intros Hpdf [Htxt | [s Htxt]];
      unfold __init__, bind, try_except, lift; rewrite Hpdf, Htxt; simpl;
      eexists _, _; (split; [reflexivity |]); (split; [reflexivity |]);
      simpl; rewrite !printed_app, !in_app_iff; simpl; auto 10.
  - intros Htxt [Hpdf | [pages Hpdf]];
      unfold __init__, bind, try_except, lift; rewrite Hpdf, Htxt; simpl;
      eexists _, _; (split; [reflexivity |]); (split; [reflexivity |]);
      simpl; rewrite !printed_app, !in_app_iff; simpl; auto 10.
Qed.

(** C9.  The name of a tool call is looked up among the globals of the
    module, not in the list [tools]: [notify] is no registered tool, yet a
    request that names it runs [notify] with the request's arguments, so
    that the message is posted and the status code comes back as the tool
    result. *)
Theorem dispatch_resolves_global_names w id arguments msg :
  json_loads X arguments = inr (JDict [("message", msg)]) ->
  let tc := {| tc_id := id; tc_name := "notify"; tc_arguments := arguments |} in
  let r := fst (handle_tool_calls X (Some [tc]) w) in
  let w' := snd (handle_tool_calls X (Some [tc]) w) in
  registered "notify" = false
  /\ globals_get "notify" = Some GNotify
  /\ invoked (trace w') = invoked (trace w) ++ [("notify", [("message", msg)])]
  /\ posted (trace w') = posted (trace w) ++ [notification X msg]
  /\ match requests_post X (count_posts (trace w)) (telegram_url X)
             (notification X msg) with
     | inr response =>
         r = Val [tool_message X id (JInt (status_code response))]
     | inl e => r = Raise e
     end.
Proof.
  intros Hargs tc r w'. subst r w'.
  rewrite handle_one.
  rewrite (handle_notify X w tc [("message", msg)] msg)
    by (reflexivity || exact Hargs).
  repeat split.
  - destruct (requests_post X (count_posts (trace w)) (telegram_url X)
                (notification X msg)) as [e | response]; simpl;
      rewrite !invoked_app; simpl; rewrite ?invoked_app, ?invoked_error_log;
      reflexivity.
  - destruct (requests_post X (count_posts (trace w)) (telegram_url X)
                (notification X msg)) as [e | response]; simpl;
      rewrite !posted_app; simpl; rewrite ?posted_app, ?posted_error_log;
      reflexivity.
  - destruct (requests_post X (count_posts (trace w)) (telegram_url X)
                (notification X msg)) as [e | response]; reflexivity.
Qed.

(** C10.  [chat] does not write to the caller's history: the list object of
    [history] is after the call what it was before, as is every other list
    object there was, the lists made during the call being new ones. *)
Theorem chat_leaves_history fuel self msg history w :
  let w' := snd (chat X fuel self msg history w) in
  heap w' !! history = heap w !! history
  /\ exists fresh, heap w' = heap w ++ fresh.
Proof.
  cbv zeta. destruct (heap w !! history) as [h |] eqn:Hh.
  - rewrite (chat_run X fuel self msg history w h Hh).
    destruct (chat_loop_heap X fuel (length (heap w))
                (allocated (first_messages self h msg) w)) as [l Hl].
    rewrite Hl. simpl.
    rewrite insert_app_r_alt, Nat.sub_diag by lia. simpl.
    split; [| now exists [l]].
    now apply lookup_app_l_Some.
  - rewrite (chat_no_history X fuel self msg history w Hh). simpl.
    split; [exact Hh |]. exists []. now rewrite app_nil_r.
Qed.

End Claims.

(** * The claims at concrete inputs *)

(** C1, as stated, fails: with a model that asks for a tool call for ever
    there is no number of iterations after which [chat] has ended, be it
    with a reply or with an error. *)
Lemma chat_loops_forever :
  ~ exists fuel,
      fst (chat looping_env fuel harsha "hello" 0 empty_world) <> OutOfFuel.
Proof.
  intros [fuel H]. apply H.
  rewrite (chat_run looping_env fuel harsha "hello" 0 empty_world [])
    by reflexivity.
  eapply looping_env_loop, allocated_lookup.
Qed.

(** C1 for that model and three iterations. *)
Lemma chat_has_no_iteration_cap_witness :
  always_tool_calls looping_env
  /\ (fst (chat looping_env 3 harsha "hello" 0 empty_world) = OutOfFuel ->
      count_completions
        (trace (snd (chat looping_env 3 harsha "hello" 0 empty_world))) = 3).
Proof.
  assert (H : always_tool_calls looping_env).
  { intros n ms. eexists. split; reflexivity. }
  split; [exact H |].
  exact (proj1 (proj2 (chat_has_no_iteration_cap looping_env 3 harsha "hello" 0
                         empty_world H))).
Defined.

Lemma once_env_assistant code tcs : assistant_responses (once_env code tcs).
Proof. intros [| n] ms r [= <-]; reflexivity. Qed.

(** C2 for a turn with one request of [record_user_details]. *)
Lemma chat_sends_well_formed_witness :
  heap empty_world !! 0 = Some []
  /\ well_formed [] = true
  /\ assistant_responses (once_env 200 [email_only])
  /\ exists new,
       sent (trace (snd (chat (once_env 200 [email_only]) 3 harsha "hello" 0
                           empty_world))) = new
       /\ sends (first_messages harsha [] "hello") new
       /\ Forall (fun l => well_formed l = true) new.
Proof.
  split; [reflexivity |]. split; [reflexivity |].
  split; [apply once_env_assistant |].
  exact (chat_sends_well_formed (once_env 200 [email_only]) 3 harsha "hello" 0
           empty_world [] eq_refl eq_refl (once_env_assistant 200 [email_only])).
Defined.

(** C3, as stated, fails: [notify] is not among the registered tools, yet a
    request that names it is carried out, and the client is called a second
    time and gives the reply of the turn. *)
Lemma unregistered_notify_is_run :
  registered "notify" = false
  /\ fst (chat (once_env 200 [notify_hi]) 5 harsha "hello" 0 empty_world)
     = Val (Some "done")
  /\ count_completions
       (trace (snd (chat (once_env 200 [notify_hi]) 5 harsha "hello" 0
                      empty_world))) = 2.
Proof. vm_compute. repeat split. Qed.

(** C3 for a request of delete_everything, alone in its response, and
    after a request of [record_user_details] that fails for want of a
    connection. *)
Lemma unbound_tool_ends_turn_witness :
  callable "delete_everything" = false
  /\ fst (chat_loop (once_env 200 [delete_everything]) 5 1 turn_world)
     = Raise TypeError
  /\ count_completions
       (trace (snd (chat_loop (once_env 200 [delete_everything]) 5 1
                      turn_world))) = 1
  /\ fst (chat_loop (offline_env [email_only; delete_everything]) 5 1
            turn_world)
     = Raise (OtherError "ConnectionError").
Proof.
  split; [reflexivity |].
  pose proof (unbound_tool_ends_turn (once_env 200 [delete_everything]) 4 1
                turn_world (first_messages harsha [] "hello")
                (assistant_requests [delete_everything]) [delete_everything]
                delete_everything eq_refl eq_refl eq_refl eq_refl
                (or_introl eq_refl) eq_refl) as (_ & Hcount & _ & Hfirst & _).
  pose proof (unbound_tool_ends_turn
                (offline_env [email_only; delete_everything]) 4 1
                turn_world (first_messages harsha [] "hello")
                (assistant_requests [email_only; delete_everything])
                [email_only; delete_everything]
                delete_everything eq_refl eq_refl eq_refl eq_refl
                (or_intror (or_introl eq_refl)) eq_refl) as (_ & _ & _ & _ & Hat).
  split; [exact (Hfirst [] eq_refl) |].
  split; [exact Hcount |].
  rewrite (Hat [email_only] [] eq_refl). vm_compute. reflexivity.
Defined.

(** C4, as stated, fails: the schema of [record_user_details] wants a
    string for the email, yet the arguments with the number 42 are taken,
    the call gives its result and the turn ends with the reply. *)
Lemma wrong_type_is_accepted :
  Json.loads (tc_arguments email_42) = inr (JDict [("email", JInt 42)])
  /\ satisfies record_user_details_json (JDict [("email", JInt 42)]) = false
  /\ fst (handle_tool_calls (once_env 200 [email_42]) (Some [email_42])
            empty_world)
     = Val [tool_message (once_env 200 [email_42]) "call_1" recorded_ok]
  /\ fst (chat (once_env 200 [email_42]) 5 harsha "hello" 0 empty_world)
     = Val (Some "done").
Proof. vm_compute. repeat split. Qed.

Lemma email_42_keys k :
  In k (map fst [("email", JInt 42)]) -> In k ["email"; "name"; "notes"].
Proof. simpl. tauto. Qed.

(** C4 for a request of [record_user_details] without the email, and for
    one with the number 42 as the email. *)
Lemma turned_down_arguments_end_turn_witness :
  turned_down (once_env 200 [name_only]) record_user_details_json
    (tc_arguments name_only)
  /\ fst (chat_loop (once_env 200 [name_only]) 5 1 turn_world) = Raise TypeError
  /\ count_completions
       (trace (snd (chat_loop (once_env 200 [name_only]) 5 1 turn_world))) = 1
  /\ json_loads (once_env 200 [email_42]) (tc_arguments email_42)
     = inr (JDict [("email", JInt 42)])
  /\ posted (trace (snd (handle_tool_call (once_env 200 [email_42]) email_42
                           empty_world)))
     = [notification (once_env 200 [email_42])
          (JStr "New visitor ➜ Name not provided, Email: 42, Notes: not provided")].
Proof.
  assert (Hbad : turned_down (once_env 200 [name_only]) record_user_details_json
                   (tc_arguments name_only)).
  { unfold turned_down.
    replace (json_loads (once_env 200 [name_only]) (tc_arguments name_only))
      with (@inr exn _ (JDict [("name", JStr "Bob")]))
      by (vm_compute; reflexivity).
    left. exists "email". split; [now left | reflexivity]. }
  assert (Hargs : json_loads (once_env 200 [email_42]) (tc_arguments email_42)
                  = inr (JDict [("email", JInt 42)]))
    by (vm_compute; reflexivity).
  split; [exact Hbad |].
  pose proof (proj1 (turned_down_arguments_end_turn (once_env 200 [name_only]))
                4 1 turn_world (first_messages harsha [] "hello")
                (assistant_requests [name_only]) [name_only] name_only
                record_user_details_json eq_refl eq_refl eq_refl eq_refl
                (or_introl eq_refl) (or_introl eq_refl) eq_refl Hbad)
    as (_ & Hcount & _ & Hfirst & _).
  split; [exact (Hfirst [] eq_refl) |]. split; [exact Hcount |].
  split; [exact Hargs |].
  exact (f_equal (fun o => posted (trace (snd o)))
           (proj1 (proj2 (turned_down_arguments_end_turn
                            (once_env 200 [email_42])))
              empty_world email_42 [("email", JInt 42)] (JInt 42)
              eq_refl Hargs eq_refl email_42_keys)).
Defined.

(** C5 for a model that replies at once. *)
Lemma chat_returns_first_final_witness :
  heap empty_world !! 0 = Some []
  /\ finish_reason (assistant_says "Hello!") <> "tool_calls"
  /\ fst (chat final_env 1 harsha "hello" 0 empty_world) = Val (Some "Hello!")
  /\ invoked (trace (snd (chat final_env 1 harsha "hello" 0 empty_world))) = [].
Proof.
  assert (Hfinish : finish_reason (assistant_says "Hello!") <> "tool_calls")
    by discriminate.
  split; [reflexivity |]. split; [exact Hfinish |].
  pose proof (chat_returns_first_final final_env 0 harsha "hello" 0 empty_world
                [] (assistant_says "Hello!") eq_refl eq_refl Hfinish)
    as (Hout & _ & Hinv).
  split; [exact Hout | exact Hinv].
Defined.



(** C7, as stated, fails: without connection [requests.post] raises, and so
    do [notify] and the turn that would have given its reply had the server
    answered; and where the model asks for [notify] itself, the status of the
    server is the tool result, so that a model that repeats it replies 500
    where it would have replied 200. *)
Lemma notify_raises_without_connection :
  fst (notify (offline_env [email_only]) (JStr "hi") empty_world)
    = Raise (OtherError "ConnectionError")
  /\ fst (chat (offline_env [email_only]) 5 harsha "hello" 0 empty_world)
     = Raise (OtherError "ConnectionError")
  /\ fst (chat (once_env 200 [email_only]) 5 harsha "hello" 0 empty_world)
     = Val (Some "done")
  /\ fst (chat (env (answering 200 "ok") (repeats_last_result [notify_hi]))
            5 harsha "hello" 0 empty_world)
     = Val (Some "200")
  /\ fst (chat (env (answering 500 "Internal Server Error")
                  (repeats_last_result [notify_hi]))
            5 harsha "hello" 0 empty_world)
     = Val (Some "500").
Proof. vm_compute. repeat split. Qed.

Lemma answering_answers code text : transport_answers (answering code text).
Proof. intros n url data. eexists. reflexivity. Qed.

Lemma once_env_no_notify code :
  notify_not_requested (once_env code [email_only]).
Proof.
  intros [| n] ms r tcs tc [= <-]; simpl; [| discriminate].
  intros [= <-] [<- | []]. discriminate.
Qed.

Lemma late_notify_not_asked :
  notify_not_asked (late_notify_env [email_only]) empty_world
    (snd (chat (with_transport (late_notify_env [email_only])
                  (answering 200 "ok"))
            5 harsha "hello" 0 empty_world)).
Proof.
  intros i ms r tcs tc _ Hsent Hr Hfinish Htcs Hin.
  apply lookup_lt_Some in Hsent.
  replace (length (sent (trace (snd (chat (with_transport
             (late_notify_env [email_only]) (answering 200 "ok"))
             5 harsha "hello" 0 empty_world))))) with 2 in Hsent
    by (vm_compute; reflexivity).
  destruct i as [| [| i]]; [| | lia].
  - injection Hr as <-. injection Htcs as <-.
    destruct Hin as [<- | []]. discriminate.
  - injection Hr as <-. discriminate.
Qed.

(** C7 for a server that answers 500 where another answers 200, the model
    being one that would ask for [notify] only long after the turn. *)
Lemma notify_tolerates_http_failure_witness :
  requests_post (once_env 500 [email_only]) 0
    (telegram_url (once_env 500 [email_only]))
    (notification (once_env 500 [email_only]) (JStr "hi"))
    = inr {| status_code := 500; body := "reply of the server" |}
  /\ fst (notify (once_env 500 [email_only]) (JStr "hi") empty_world)
     = Val (VJson (JInt 500))
  /\ transport_answers (answering 200 "ok")
  /\ transport_answers (answering 500 "Internal Server Error")
  /\ notify_not_asked (late_notify_env [email_only]) empty_world
       (snd (chat (with_transport (late_notify_env [email_only])
                     (answering 200 "ok"))
               5 harsha "hello" 0 empty_world))
  /\ fst (chat (with_transport (late_notify_env [email_only])
                  (answering 200 "ok"))
            5 harsha "hello" 0 empty_world)
     = fst (chat (with_transport (late_notify_env [email_only])
                    (answering 500 "Internal Server Error"))
              5 harsha "hello" 0 empty_world).
Proof.
  split; [reflexivity |].
  split.
  { exact (f_equal fst
             (proj1 (proj1 (notify_tolerates_http_failure
                              (once_env 500 [email_only]))
                       (JStr "hi") empty_world _ eq_refl))). }
  split; [apply answering_answers |].
  split; [apply answering_answers |].
  split; [exact late_notify_not_asked |].
  exact (proj1 (proj2 (notify_tolerates_http_failure
                         (late_notify_env [email_only]))
                  (answering 200 "ok") (answering 500 "Internal Server Error")
                  5 harsha "hello" 0 empty_world
                  (answering_answers _ _) (answering_answers _ _)
                  late_notify_not_asked)).
Defined.

(** C8 with both files missing. *)
Lemma init_survives_missing_files_witness :
  pdf_pages final_env pdf_path = inl FileNotFoundError
  /\ read_text final_env summary_path = inl FileNotFoundError
  /\ exists bot w',
       __init__ final_env empty_world = (Val bot, w')
       /\ linkedin bot = linkedin_placeholder
       /\ In ("Error: Could not find " +:+ pdf_path) (printed (trace w')).
Proof.
  split; [reflexivity |]. split; [reflexivity |].
  exact (proj1 (init_survives_missing_files final_env empty_world)
           eq_refl (or_introl eq_refl)).
Defined.

(** C9 for a request of [notify] with the message hi. *)
Lemma dispatch_resolves_global_names_witness :
  json_loads (once_env 200 [notify_hi]) (tc_arguments notify_hi)
    = inr (JDict [("message", JStr "hi")])
  /\ posted (trace (snd (handle_tool_calls (once_env 200 [notify_hi])
                           (Some [notify_hi]) empty_world)))
     = [notification (once_env 200 [notify_hi]) (JStr "hi")].
Proof.
  assert (Hargs : json_loads (once_env 200 [notify_hi]) (tc_arguments notify_hi)
                  = inr (JDict [("message", JStr "hi")]))
    by (vm_compute; reflexivity).
  split; [exact Hargs |].
  exact (proj1 (proj2 (proj2 (proj2
           (dispatch_resolves_global_names (once_env 200 [notify_hi])
              empty_world "call_1" (tc_arguments notify_hi) (JStr "hi")
              Hargs))))).
Defined.

(** * Further properties of the module *)

Lemma bind_params_names params kw bound :
  bind_params params kw = Some bound -> map fst bound = map fst params.
Proof.
  revert bound. induction params as [| [p d] params IH]; intros bound; simpl.
  - now intros [= <-].
  - destruct (match assoc p kw with Some v => Some v | None => d end);
      [| discriminate].
    destruct (bind_params params kw) as [bs |]; [| discriminate].
    intros [= <-]. simpl. f_equal. now apply IH.
Qed.

Lemma append_empty_r (s : string) : s +:+ EmptyString = s.
Proof.
  induction s as [| c s IH]; [reflexivity |].
  change (String c (s +:+ EmptyString) = String c s). now rewrite IH.
Qed.

Lemma append_append (a b c : string) : (a +:+ b) +:+ c = a +:+ b +:+ c.
Proof.
  induction a as [| x a IH]; [reflexivity |].
  change (String x ((a +:+ b) +:+ c) = String x (a +:+ b +:+ c)).
  now rewrite IH.
Qed.

Lemma contains_here a s b : contains s (a +:+ s +:+ b).
Proof. now exists a, b. Qed.

Lemma contains_end a s : contains s (a +:+ s).
Proof. exists a, EmptyString. now rewrite append_empty_r. Qed.

Lemma contains_later a s t : contains s t -> contains s (a +:+ t).
Proof.
  intros (x & y & ->). exists (a +:+ x), y. now rewrite append_append.
Qed.

Section Further.

Context (X : Externals).

(** A call with a notice posts it and gives the payload recorded ok. *)
Lemma handle_noticed tc message w :
  notice X tc = Some message ->
  exists fn bound,
    handle_tool_call X tc w =
      match requests_post X (count_posts (trace w)) (telegram_url X)
              (notification X message) with
      | inl e => (Raise e, logged (dispatch_events X fn bound message) w)
      | inr response =>
          (Val (recorded X tc),
           logged (dispatch_events X fn bound message ++ error_log response) w)
      end.
Proof.
  unfold notice. intros H.
  destruct (json_loads X (tc_arguments tc)) as [| [| | | | | | kw]] eqn:Hargs;
    try discriminate.
  destruct (String.eqb_spec (tc_name tc) "record_user_details") as [Hn | _].
  - destruct (bind_args record_user_details_params kw) as [bound |] eqn:Hb;
      [| discriminate].
    pose proof Hb as Hnames. unfold bind_args in Hnames.
    destruct (forallb _ kw); [| discriminate].
    apply bind_params_names in Hnames.
    destruct bound as [| [a email] [| [b name] [| [c notes] [| ? ?]]]];
      try discriminate.
    injection Hnames as -> -> ->. injection H as <-.
    eexists _, _.
    apply (handle_record_user_details X w tc kw email name notes Hn Hargs Hb).
  - destruct (String.eqb_spec (tc_name tc) "record_unknown_question")
      as [Hn | _]; [| discriminate].
    destruct (bind_args record_unknown_question_params kw) as [bound |] eqn:Hb;
      [| discriminate].
    pose proof Hb as Hnames. unfold bind_args in Hnames.
    destruct (forallb _ kw); [| discriminate].
    apply bind_params_names in Hnames.
    destruct bound as [| [a question] [| ? ?]]; try discriminate.
    injection Hnames as ->. injection H as <-.
    eexists _, _.
    apply (handle_record_unknown_question X w tc kw question Hn Hargs Hb).
Qed.

(** X1.  A request of [record_unknown_question] with the question as its
    only argument calls the function with it and posts exactly one
    notification, the one for an unknown question, whose text contains the
    question; when the transport answers, whatever the status, the one result
    is the tool message with the payload recorded ok, and an exception of the
    transport is the outcome otherwise. *)
Theorem record_unknown_question_dispatch w id arguments question :
  json_loads X arguments = inr (JDict [("question", question)]) ->
  let tc := {| tc_id := id; tc_name := "record_unknown_question";
               tc_arguments := arguments |} in
  let r := fst (handle_tool_calls X (Some [tc]) w) in
  let w' := snd (handle_tool_calls X (Some [tc]) w) in
  invoked (trace w') =
    invoked (trace w) ++ [("record_unknown_question", [("question", question)])]
  /\ posted (trace w') =
       posted (trace w) ++ [notification X (question_message X question)]
  /\ contains (py_str (py_repr X) question)
       (text (notification X (question_message X question)))
  /\ match requests_post X (count_posts (trace w)) (telegram_url X)
             (notification X (question_message X question)) with
     | inr _ => r = Val [tool_message X id recorded_ok]
     | inl e => r = Raise e
     end.
Proof.
  intros Hargs tc r w'. subst r w'.
  rewrite handle_one.
  rewrite (handle_record_unknown_question X w tc [("question", question)]
             question) by (reflexivity || exact Hargs).
  cbv zeta.
  set (p := notification X (question_message X question)).
  split; [| split; [| split]].
  - destruct (requests_post X (count_posts (trace w)) (telegram_url X) p)
      as [e | response]; simpl;
      rewrite !invoked_app; simpl; rewrite ?invoked_app, ?invoked_error_log;
      reflexivity.
  - destruct (requests_post X (count_posts (trace w)) (telegram_url X) p)
      as [e | response]; simpl;
      rewrite !posted_app; simpl; rewrite ?posted_app, ?posted_error_log;
      reflexivity.
  - subst p. unfold notification, question_message. simpl text.
    do 3 apply contains_later. apply contains_end.
  - destruct (requests_post X (count_posts (trace w)) (telegram_url X) p)
      as [e | response]; reflexivity.
Qed.

(** X2.  [record_user_details] is called with the values the arguments give
    for email, name and notes, whatever their JSON types and in whatever
    order they come; the default of name or notes is used only when the
    name is absent from the arguments.  One notification is posted, for a
    visitor with these values. *)
Theorem record_user_details_binds_arguments w id arguments kw email :
  json_loads X arguments = inr (JDict kw) ->
  assoc "email" kw = Some email ->
  (forall k, In k (map fst kw) -> In k ["email"; "name"; "notes"]) ->
  let tc := {| tc_id := id; tc_name := "record_user_details";
               tc_arguments := arguments |} in
  let name := default (JStr "Name not provided") (assoc "name" kw) in
  let notes := default (JStr "not provided") (assoc "notes" kw) in
  let r := fst (handle_tool_calls X (Some [tc]) w) in
  let w' := snd (handle_tool_calls X (Some [tc]) w) in
  invoked (trace w') =
    invoked (trace w)
      ++ [("record_user_details",
           [("email", email); ("name", name); ("notes", notes)])]
  /\ posted (trace w') =
       posted (trace w)
         ++ [notification X (visitor_message X email name notes)]
  /\ match requests_post X (count_posts (trace w)) (telegram_url X)
             (notification X (visitor_message X email name notes)) with
     | inr _ => r = Val [tool_message X id recorded_ok]
     | inl e => r = Raise e
     end.
Proof.
  intros Hargs Hemail Hkeys tc name notes r w'. subst r w'.
  rewrite handle_one.
  rewrite (handle_record_user_details X w tc kw email name notes)
    by (reflexivity || exact Hargs || now apply bind_user_details).
  cbv zeta.
  set (p := notification X (visitor_message X email name notes)).
  split; [| split];
    destruct (requests_post X (count_posts (trace w)) (telegram_url X) p)
      as [e | response]; simpl;
    rewrite ?invoked_app, ?posted_app; simpl;
    rewrite ?invoked_app, ?posted_app, ?invoked_error_log, ?posted_error_log;
    reflexivity.
Qed.

(** X3.  A call of a registered tool whose arguments satisfy the parameter
    schema of its description, and name no property beyond it, is carried
    out: its line is printed, the function of that name is called with every
    value the arguments give, and its notification is posted; it can fail only
    with an exception of the transport, and otherwise gives the tool message
    with the payload recorded ok. *)
Theorem schema_conformant_call_is_carried_out spec tc kw w :
  In spec tools ->
  tc_name tc = fn_name spec ->
  json_loads X (tc_arguments tc) = inr (JDict kw) ->
  satisfies spec (JDict kw) = true ->
  (forall k, In k (map fst kw) -> In k (map fst (properties spec))) ->
  exists bound message,
    notice X tc = Some message
    /\ map fst bound = map fst (properties spec)
    /\ (forall p v, assoc p kw = Some v -> In (p, v) bound)
    /\ handle_tool_call X tc w =
         match requests_post X (count_posts (trace w)) (telegram_url X)
                 (notification X message) with
         | inl e =>
             (Raise e, logged (dispatch_events X (tc_name tc) bound message) w)
         | inr response =>
             (Val (recorded X tc),
              logged (dispatch_events X (tc_name tc) bound message
                        ++ error_log response) w)
         end.
Proof.
  intros Hspec Hname Hargs Hsat Hkeys.
  apply andb_true_iff in Hsat as [Hreq _].
  destruct Hspec as [<- | [<- | []]]; simpl in Hreq, Hkeys, Hname.
  - destruct (assoc "email" kw) as [email |] eqn:Hemail; [| discriminate].
    pose proof (bind_user_details kw email Hemail Hkeys) as Hbind.
    exists [("email", email);
            ("name", default (JStr "Name not provided") (assoc "name" kw));
            ("notes", default (JStr "not provided") (assoc "notes" kw))].
    eexists. split; [| split; [| split]].
    + unfold notice. rewrite Hargs, Hname. simpl. rewrite Hbind. reflexivity.
    + reflexivity.
    + intros p v Hp.
      assert (Hin : In p ["email"; "name"; "notes"]).
      { apply Hkeys. clear - Hp. induction kw as [| [k x] kw IH];
          [discriminate |]. simpl in Hp |- *.
        destruct (String.eqb_spec p k); [now left | right; now apply IH]. }
      simpl in Hin.
      destruct Hin as [<- | [<- | [<- | []]]].
      * rewrite Hemail in Hp. injection Hp as ->. now left.
      * rewrite Hp. right. now left.
      * rewrite Hp. right. right. now left.
    + rewrite Hname.
      apply (handle_record_user_details X w tc kw _ _ _ Hname Hargs Hbind).
  - destruct (assoc "question" kw) as [question |] eqn:Hq; [| discriminate].
    pose proof (bind_unknown_question kw question Hq Hkeys) as Hbind.
    exists [("question", question)].
    eexists. split; [| split; [| split]].
    + unfold notice. rewrite Hargs, Hname. simpl. rewrite Hbind. reflexivity.
    + reflexivity.
    + intros p v Hp.
      assert (Hin : In p ["question"]).
      { apply Hkeys. clear - Hp. induction kw as [| [k x] kw IH];
          [discriminate |]. simpl in Hp |- *.
        destruct (String.eqb_spec p k); [now left | right; now apply IH]. }
      simpl in Hin. destruct Hin as [<- | []].
      rewrite Hq in Hp. injection Hp as ->. now left.
    + rewrite Hname.
      apply (handle_record_unknown_question X w tc kw _ Hname Hargs Hbind).
Qed.

(** X4.  The tool calls of a response are carried out one after the other:
    handling a list of calls is handling a first part of it and then, in the
    world that leaves, the rest, the results of the two parts in this order;
    when the first part raises, nothing of the rest is begun. *)
Theorem handle_tool_calls_in_sequence tcs1 tcs2 w :
  handle_tool_calls X (Some (tcs1 ++ tcs2)) w =
    match handle_tool_calls X (Some tcs1) w with
    | (Val out1, w1) =>
        match handle_tool_calls X (Some tcs2) w1 with
        | (Val out2, w2) => (Val (out1 ++ out2), w2)
        | (Raise e, w2) => (Raise e, w2)
        | (OutOfFuel, w2) => (OutOfFuel, w2)
        end
    | (Raise e, w1) => (Raise e, w1)
    | (OutOfFuel, w1) => (OutOfFuel, w1)
    end.
Proof.
  simpl. rewrite handle_each_app.
  destruct (handle_each X tcs1 [] w) as [[out1 | e |] w1]; try reflexivity.
  apply handle_each_acc.
Qed.

Lemma handle_cons tc tcs w :
  handle_tool_calls X (Some (tc :: tcs)) w =
    match handle_tool_call X tc w with
    | (Val m, w1) =>
        match handle_tool_calls X (Some tcs) w1 with
        | (Val out, w2) => (Val (m :: out), w2)
        | (Raise e, w2) => (Raise e, w2)
        | (OutOfFuel, w2) => (OutOfFuel, w2)
        end
    | (Raise e, w1) => (Raise e, w1)
    | (OutOfFuel, w1) => (OutOfFuel, w1)
    end.
Proof.
  simpl. unfold bind.
  destruct (handle_tool_call X tc w) as [[m | e |] w1]; try reflexivity.
  apply (handle_each_acc X tcs [m] w1).
Qed.

(** X5.  With a transport that always answers, a response whose tool calls
    all are calls of the two registered tools with arguments that bind gets
    one result recorded ok for each call, in the order of the calls, and one
    notification is posted for each call, in that order: calls that are
    alike are notified as often as they come. *)
Theorem registered_batch_is_notified tcs messages w :
  transport_answers (requests_post X) ->
  Forall2 (fun tc message => notice X tc = Some message) tcs messages ->
  fst (handle_tool_calls X (Some tcs) w) = Val (map (recorded X) tcs)
  /\ posted (trace (snd (handle_tool_calls X (Some tcs) w))) =
       posted (trace w) ++ map (notification X) messages.
Proof.
  intros Hpost Hall. revert w.
  induction Hall as [| tc message tcs messages Hnotice _ IH]; intros w.
  - simpl. now rewrite app_nil_r.
  - rewrite handle_cons.
    destruct (handle_noticed tc message w Hnotice) as (fn & bound & ->).
    destruct (Hpost (count_posts (trace w)) (telegram_url X)
                (notification X message)) as [response ->].
    destruct (IH (logged (dispatch_events X fn bound message
                            ++ error_log response) w)) as [IH1 IH2].
    destruct (handle_tool_calls X (Some tcs) _) as [[out | e |] w2];
      cbn [fst snd] in IH1, IH2 |- *; try discriminate.
    injection IH1 as ->. split; [reflexivity |].
    rewrite IH2. cbn [trace logged].
    rewrite !posted_app, posted_error_log. simpl.
    now rewrite <- app_assoc.
Qed.

(** X6.  Whatever names and arguments the tool calls carry, handling them
    makes no call of the completion client and leaves every message list as
    it is (an imported callable taken to touch neither). *)
Theorem tool_dispatch_keeps_conversation tool_calls w :
  heap (snd (handle_tool_calls X tool_calls w)) = heap w
  /\ sent (trace (snd (handle_tool_calls X tool_calls w))) = sent (trace w).
Proof.
  pose proof (preserves_handle_tool_calls X tool_calls w) as Heff.
  split; [apply Heff | now apply tool_effects_sent].
Qed.

(** X7.  A response that says tool_calls without tool calls: when its
    [tool_calls] is [None] the turn ends with a TypeError after that call of
    the client; when it is the empty list the response message alone is put
    at the end of the messages, nothing is printed, posted or invoked, and
    the loop goes to its next call of the client. *)
Theorem tool_calls_absent_or_empty fuel messages w ms r :
  heap w !! messages = Some ms ->
  completions_create X (count_completions (trace w)) ms = inr r ->
  finish_reason r = "tool_calls" ->
  (tool_calls (message r) = None ->
   chat_loop X (S fuel) messages w = (Raise TypeError, called ms w))
  /\ (tool_calls (message r) = Some [] ->
      chat_loop X (S fuel) messages w =
        chat_loop X fuel messages
          (extended messages (ms ++ [message r]) (called ms w))).
Proof.
  intros Hms Hr Hfinish.
  split; intros Htcs;
    rewrite (chat_loop_step X fuel messages w ms Hms), Hr, Hfinish, Htcs;
    reflexivity.
Qed.

Lemma chat_loop_reply fuel messages w c :
  fst (chat_loop X fuel messages w) = Val c ->
  exists earlier ms r,
    sent (trace (snd (chat_loop X fuel messages w))) = earlier ++ [ms]
    /\ completions_create X (length earlier) ms = inr r
    /\ finish_reason r <> "tool_calls"
    /\ content (message r) = c.
Proof.
  revert w. induction fuel as [| fuel IH]; intros w; [discriminate |].
  destruct (heap w !! messages) as [ms |] eqn:Hms.
  - rewrite (chat_loop_step X fuel messages w ms Hms).
    destruct (completions_create X _ ms) as [e | r] eqn:Hr; [discriminate |].
    destruct (String.eqb_spec (finish_reason r) "tool_calls") as [_ | Hfinish].
    + destruct (handle_tool_calls X _ _) as [[results | e |] w2];
        try discriminate.
      apply IH.
    + simpl. intros [= <-]. exists (sent (trace w)), ms, r.
      rewrite sent_app, <- count_completions_sent. auto.
  - rewrite chat_loop_no_list by exact Hms. discriminate.
Qed.

(** X8.  A reply that [chat] returns is the content of the response to the
    last list it sent to the completion client, as it is, and the finish
    reason of that response is not tool_calls. *)
Theorem chat_reply_is_last_response fuel self msg history w c :
  fst (chat X fuel self msg history w) = Val c ->
  exists earlier ms r,
    sent (trace (snd (chat X fuel self msg history w))) = earlier ++ [ms]
    /\ completions_create X (length earlier) ms = inr r
    /\ finish_reason r <> "tool_calls"
    /\ content (message r) = c.
Proof.
  destruct (heap w !! history) as [h |] eqn:Hh.
  - rewrite (chat_run X fuel self msg history w h Hh). apply chat_loop_reply.
  - rewrite (chat_no_history X fuel self msg history w Hh). discriminate.
Qed.

Lemma chat_loop_raises fuel messages w e :
  fst (chat_loop X fuel messages w) = Raise e ->
  (heap w !! messages = None /\ e = TypeError
   /\ snd (chat_loop X fuel messages w) = w)
  \/ (exists t ms,
        trace (snd (chat_loop X fuel messages w))
          = t ++ [ECompletion "llama3.2" ms]
        /\ count_completions (trace w) <= count_completions t
        /\ completions_create X (count_completions t) ms = inl e)
  \/ (exists n,
        count_completions (trace w) <= n
        /\ fails_handling X e n (snd (chat_loop X fuel messages w))).
Proof.
  revert w. induction fuel as [| fuel IH]; intros w; [discriminate |].
  destruct (heap w !! messages) as [ms |] eqn:Hms.
  - rewrite (chat_loop_step X fuel messages w ms Hms).
    destruct (completions_create X _ ms) as [e' | r] eqn:Hr.
    + intros [= <-]. right. left. exists (trace w), ms. auto.
    + destruct (String.eqb_spec (finish_reason r) "tool_calls")
        as [Hfinish | _]; [| discriminate].
      pose proof (preserves_handle_tool_calls X (tool_calls (message r))
                    (called ms w)) as Heff.
      destruct (handle_tool_calls X _ _) as [[results | e' |] w2] eqn:Hcalls;
        try discriminate; cbn [fst snd] in *.
      * assert (Hcount : count_completions (trace w2)
                         = S (count_completions (trace w))).
        { rewrite (tool_effects_count _ _ Heff). simpl.
          rewrite count_completions_app. simpl. lia. }
        intros H. destruct (IH _ H) as [[Hnone _] | [H' | H']].
        -- exfalso. simpl in Hnone. destruct Heff as [Hheap _].
           apply lookup_ge_None in Hnone.
           rewrite length_insert, Hheap in Hnone.
           apply lookup_lt_Some in Hms. simpl in Hnone. lia.
        -- right. left. destruct H' as (t & ms' & Ht & Hle & He).
           exists t, ms'. simpl trace in Hle. split; [exact Ht |].
           split; [lia | exact He].
        -- right. right. destruct H' as (n & Hle & Hfail).
           exists n. simpl trace in Hle. split; [lia | exact Hfail].
      * intros [= <-]. right. right. exists (count_completions (trace w)).
        split; [lia |]. exists (trace w), ms, r, (called ms w).
        repeat split; auto.
  - rewrite chat_loop_no_list by exact Hms. intros [= <-]. now left.
Qed.

(** X9.  [chat] passes on the exceptions it meets and raises none of its
    own.  At any iteration of the loop an exception of the completion client
    ends the turn with that exception, and so does an exception of the
    handling of the tool calls.  And a turn that ends with an exception ends
    in one of three ways: at once with the TypeError of a history that is no
    list; with the exception of the call of the client that is the last event
    of the turn; or with the exception that the handling of the tool calls of
    the last response raised, in the world that handling left. *)
Theorem chat_passes_exceptions_on :
  (forall fuel messages w ms e,
     heap w !! messages = Some ms ->
     completions_create X (count_completions (trace w)) ms = inl e ->
     chat_loop X (S fuel) messages w = (Raise e, called ms w))
  /\ (forall fuel messages w ms r e w',
        heap w !! messages = Some ms ->
        completions_create X (count_completions (trace w)) ms = inr r ->
        finish_reason r = "tool_calls" ->
        handle_tool_calls X (tool_calls (message r)) (called ms w)
          = (Raise e, w') ->
        chat_loop X (S fuel) messages w = (Raise e, w'))
  /\ (forall fuel self msg history w e,
        fst (chat X fuel self msg history w) = Raise e ->
        (heap w !! history = None /\ e = TypeError
         /\ snd (chat X fuel self msg history w) = w)
        \/ (exists t ms,
              trace (snd (chat X fuel self msg history w))
                = t ++ [ECompletion "llama3.2" ms]
              /\ count_completions (trace w) <= count_completions t
              /\ completions_create X (count_completions t) ms = inl e)
        \/ (exists n,
              count_completions (trace w) <= n
              /\ fails_handling X e n (snd (chat X fuel self msg history w)))).
Proof.
  split; [| split].
  - intros fuel messages w ms e Hms He.
    now rewrite (chat_loop_step X fuel messages w ms Hms), He.
  - intros fuel messages w ms r e w' Hms Hr Hfinish Hcalls.
    now rewrite (chat_loop_step X fuel messages w ms Hms), Hr, Hfinish, Hcalls.
  - intros fuel self msg history w e.
    destruct (heap w !! history) as [h |] eqn:Hh.
    + rewrite (chat_run X fuel self msg history w h Hh). intros H.
      destruct (chat_loop_raises _ _ _ _ H) as [[Hnone _] | H'];
        [| right; exact H'].
      rewrite allocated_lookup in Hnone. discriminate.
    + rewrite (chat_no_history X fuel self msg history w Hh).
      intros [= <-]. left. now repeat split.
Qed.

End Further.

Lemma sends_prefix ms new :
  sends ms new -> Forall (fun l => ms `prefix_of` l) new.
Proof.
  induction 1 as [ms | ms | ms a tcs results rest _ _ _ IH].
  - constructor.
  - now repeat constructor.
  - constructor; [reflexivity |].
    eapply Forall_impl; [exact IH |]. intros l Hl. simpl in Hl.
    eapply prefix_app_l, Hl.
Qed.

Lemma sends_grow ms new i l l' :
  sends ms new ->
  new !! i = Some l -> new !! S i = Some l' ->
  l `prefix_of` l' /\ length l < length l'.
Proof.
  intros H. revert i.
  induction H as [ms | ms | ms a tcs results rest _ _ Hrest IH]; intros i.
  - discriminate.
  - destruct i; discriminate.
  - destruct i as [| i]; simpl.
    + intros [= <-] Hl'. inversion Hrest; subst; try discriminate;
        simpl in Hl'; injection Hl' as <-.
      * split; [now apply prefix_app_r | rewrite length_app; simpl; lia].
      * split; [now apply prefix_app_r | rewrite length_app; simpl; lia].
    + apply IH.
Qed.

Section FurtherChat.

Context (X : Externals).

(** X10.  Within a turn the conversation is only added to: every list [chat]
    sends to the completion client begins with the system message, the history
    as it was given and the user's message, and each list sent is the one
    sent before with messages put at its end. *)
Theorem chat_only_appends fuel self msg history w h :
  heap w !! history = Some h ->
  exists new,
    sent (trace (snd (chat X fuel self msg history w))) = sent (trace w) ++ new
    /\ Forall (fun l => first_messages self h msg `prefix_of` l) new
    /\ (forall i l l',
          new !! i = Some l -> new !! S i = Some l' ->
          l `prefix_of` l' /\ length l < length l').
Proof.
  intros Hh. rewrite (chat_run X fuel self msg history w h Hh).
  destruct (chat_loop_appends X fuel (length (heap w))
              (allocated (first_messages self h msg) w)
              (first_messages self h msg) (allocated_lookup _ w))
    as (new & Hnew & Hsends).
  exists new. split; [exact Hnew |]. split.
  - now apply sends_prefix.
  - intros i l l'. exact (sends_grow _ new i l l' Hsends).
Qed.

End FurtherChat.

Lemma exn_eqb_other e : e <> FileNotFoundError -> exn_eqb e FileNotFoundError = false.
Proof. destruct e; simpl; congruence. Qed.

Lemma bind_ret {A} (m : M A) w : (let! a := m in ret a) w = m w.
Proof. unfold bind, ret. now destruct (m w) as [[a | e |] w1]. Qed.

Section Startup.

Context (X : Externals).

(** X11.  With both knowledge files read, the constructor gives the object
    with the name A.S Harsha, the texts of the pages of the PDF put together
    as [linkedin] (a page without text counting as empty, so that no page
    gives the empty text) and the text of the summary file as [summary], and
    prints nothing. *)
Theorem init_reads_both_files w pages text :
  pdf_pages X pdf_path = inr pages ->
  read_text X summary_path = inr text ->
  __init__ X w =
    (Val {| name := "A.S Harsha"; linkedin := pages_text pages;
            summary := text |}, w).
Proof.
  intros Hpdf Htxt. unfold __init__, bind, try_except, lift.
  now rewrite Hpdf, Htxt.
Qed.

(** X12.  Only a file that is not found is made up for: any other exception
    from reading the PDF ends the constructor with that exception before the
    summary file is looked at, and any other exception from reading the
    summary file ends it too. *)
Theorem init_stops_on_other_errors w e :
  e <> FileNotFoundError ->
  (pdf_pages X pdf_path = inl e -> __init__ X w = (Raise e, w))
  /\ (read_text X summary_path = inl e ->
      (forall e', pdf_pages X pdf_path = inl e' -> e' = FileNotFoundError) ->
      fst (__init__ X w) = Raise e).
Proof.
  intros He. pose proof (exn_eqb_other e He) as Hneq. split.
  - intros Hpdf. unfold __init__, bind, try_except, lift.
    rewrite Hpdf. simpl. now rewrite Hneq.
  - intros Htxt Hpdf. unfold __init__, bind, try_except, lift. rewrite Htxt.
    destruct (pdf_pages X pdf_path) as [e' |]; simpl.
    + rewrite (Hpdf e' eq_refl). simpl. now rewrite Hneq.
    + now rewrite Hneq.
Qed.

(** X13.  [notify] posts exactly one request, whatever comes of it.  With a
    response it returns the status code, and it prints the four lines of the
    error exactly when the status is from 400 to 599: a status below 400 or
    from 600 on is passed over in silence.  With an exception of the
    transport it prints nothing. *)
Theorem notify_prints_for_400_to_599 msg w :
  posted (trace (snd (notify X msg w))) =
    posted (trace w) ++ [notification X msg]
  /\ match requests_post X (count_posts (trace w)) (telegram_url X)
             (notification X msg) with
     | inl e =>
         fst (notify X msg w) = Raise e
         /\ printed (trace (snd (notify X msg w))) = printed (trace w)
     | inr response =>
         fst (notify X msg w) = Val (VJson (JInt (status_code response)))
         /\ ((400 <= status_code response < 600)%Z ->
             printed (trace (snd (notify X msg w))) =
               printed (trace w) ++ error_lines response)
         /\ ((status_code response < 400 \/ 600 <= status_code response)%Z ->
             printed (trace (snd (notify X msg w))) = printed (trace w))
     end.
Proof.
  rewrite notify_run.
  destruct (requests_post X (count_posts (trace w)) (telegram_url X)
              (notification X msg)) as [e | response]; simpl.
  - rewrite posted_app, printed_app. simpl. now rewrite app_nil_r.
  - rewrite posted_app, printed_app. simpl. rewrite posted_error_log.
    split; [reflexivity |]. split; [reflexivity |].
    unfold error_log, ok. split; intros Hstatus.
    + replace (400 <=? status_code response)%Z with true by lia.
      replace (status_code response <? 600)%Z with true by lia.
      reflexivity.
    + destruct Hstatus.
      * replace (400 <=? status_code response)%Z with false by lia.
        simpl. now rewrite app_nil_r.
      * replace (status_code response <? 600)%Z with false by lia.
        rewrite andb_false_r. simpl. now rewrite app_nil_r.
Qed.

(** X14.  The start of the program posts the notification of the start
    first.  When the transport raises, the start ends with that exception and
    no object is made; with a response, whatever its status, the constructor
    runs next and its outcome is that of the start. *)
Theorem main_notifies_then_builds w :
  let p := notification X
             (JStr ("Bot starting up! Chat ID: "
                      +:+ str_of_option (TELEGRAM_CHAT_ID X))) in
  match requests_post X (count_posts (trace w)) (telegram_url X) p with
  | inl e => main X w = (Raise e, logged [EPost (telegram_url X) p] w)
  | inr response =>
      main X w =
        __init__ X (logged (EPost (telegram_url X) p :: error_log response) w)
  end.
Proof.
  cbv zeta.
  set (p := notification X _).
  assert (E : main X w =
              match requests_post X (count_posts (trace w)) (telegram_url X) p
              with
              | inl e => (Raise e, logged [EPost (telegram_url X) p] w)
              | inr response =>
                  __init__ X
                    (logged (EPost (telegram_url X) p :: error_log response) w)
              end).
  { unfold main. unfold bind at 1. rewrite notify_run. fold p.
    destruct (requests_post X (count_posts (trace w)) (telegram_url X) p)
      as [e | response]; [reflexivity | apply bind_ret]. }
  rewrite E.
  now destruct (requests_post X (count_posts (trace w)) (telegram_url X) p).
Qed.

End Startup.

Ltac find_part :=
  first [ apply contains_here | apply contains_later; find_part ].

(** The system prompt holds the name, the summary and the text of the
    profile of the object it is built from. *)
Lemma system_prompt_holds_knowledge self :
  contains (name self) (system_prompt self)
  /\ contains (summary self) (system_prompt self)
  /\ contains (linkedin self) (system_prompt self).
Proof. unfold system_prompt. repeat split; find_part. Qed.

Lemma prompt_holds_summary self : contains (summary self) (system_prompt self).
Proof. unfold system_prompt. find_part. Qed.

Lemma init_summary_missing X w bot w1 :
  __init__ X w = (Val bot, w1) ->
  read_text X summary_path = inl FileNotFoundError ->
  summary bot = summary_placeholder.
Proof.
  unfold __init__, bind, try_except, lift. intros H Htxt. rewrite Htxt in H.
  destruct (pdf_pages X pdf_path) as [e |]; simpl in H.
  - destruct (exn_eqb e FileNotFoundError); simpl in H; [| discriminate].
    now injection H as <- _.
  - now injection H as <- _.
Qed.

(** X15.  The placeholder of a missing summary file is what the model is
    told: with an object made while the summary file was not found, every
    list [chat] sends to the completion client begins with a system message
    whose prompt holds the text about the file not found. *)
Theorem missing_summary_reaches_the_model X w bot w1 fuel msg history w2 h :
  __init__ X w = (Val bot, w1) ->
  read_text X summary_path = inl FileNotFoundError ->
  heap w2 !! history = Some h ->
  exists new,
    sent (trace (snd (chat X fuel bot msg history w2))) = sent (trace w2) ++ new
    /\ Forall (prompted_with summary_placeholder) new.
Proof.
  intros Hinit Htxt Hh. rewrite (chat_run X fuel bot msg history w2 h Hh).
  destruct (chat_loop_appends X fuel (length (heap w2))
              (allocated (first_messages bot h msg) w2)
              (first_messages bot h msg) (allocated_lookup _ w2))
    as (new & Hnew & Hsends).
  exists new. split; [exact Hnew |].
  eapply Forall_impl; [exact (sends_prefix _ _ Hsends) |].
  intros l [k ->]. exists (system_prompt bot), (h ++ [user_message msg] ++ k).
  split.
  - unfold first_messages. simpl. now rewrite <- app_assoc.
  - rewrite <- (init_summary_missing X w bot w1 Hinit Htxt).
    apply prompt_holds_summary.
Qed.

(** * The further properties at concrete inputs *)

(** X1 for the question What is X?. *)
Lemma record_unknown_question_dispatch_witness :
  json_loads looping_env (tc_arguments ask_what_is_x)
    = inr (JDict [("question", JStr "What is X?")])
  /\ posted (trace (snd (handle_tool_calls looping_env (Some [ask_what_is_x])
                           empty_world)))
     = [notification looping_env (question_message looping_env (JStr "What is X?"))].
Proof.
  assert (Hargs : json_loads looping_env (tc_arguments ask_what_is_x)
                  = inr (JDict [("question", JStr "What is X?")]))
    by (vm_compute; reflexivity).
  split; [exact Hargs |].
  exact (proj1 (proj2 (record_unknown_question_dispatch looping_env empty_world
                         "call_1" (tc_arguments ask_what_is_x)
                         (JStr "What is X?") Hargs))).
Defined.

Lemma name_null_keys k :
  In k (map fst [("email", JStr "a@b.com"); ("name", JNull)]) ->
  In k ["email"; "name"; "notes"].
Proof. simpl. tauto. Qed.

(** X2 for arguments with null for the name: [None] is what is notified. *)
Lemma record_user_details_binds_arguments_witness :
  json_loads (once_env 200 [name_null]) (tc_arguments name_null)
    = inr (JDict [("email", JStr "a@b.com"); ("name", JNull)])
  /\ posted (trace (snd (handle_tool_calls (once_env 200 [name_null])
                           (Some [name_null]) empty_world)))
     = [notification (once_env 200 [name_null])
          (JStr "New visitor ➜ None, Email: a@b.com, Notes: not provided")].
Proof.
  assert (Hargs : json_loads (once_env 200 [name_null]) (tc_arguments name_null)
                  = inr (JDict [("email", JStr "a@b.com"); ("name", JNull)]))
    by (vm_compute; reflexivity).
  split; [exact Hargs |].
  exact (proj1 (proj2 (record_user_details_binds_arguments
                         (once_env 200 [name_null]) empty_world "call_1"
                         (tc_arguments name_null) _ (JStr "a@b.com")
                         Hargs eq_refl name_null_keys))).
Defined.

Lemma email_only_keys k :
  In k (map fst [("email", JStr "a@b.com")]) ->
  In k (map fst (properties record_user_details_json)).
Proof. simpl. tauto. Qed.

(** X3 for the request with the email alone. *)
Lemma schema_conformant_call_is_carried_out_witness :
  satisfies record_user_details_json (JDict [("email", JStr "a@b.com")]) = true
  /\ exists bound message,
       notice (once_env 500 [email_only]) email_only = Some message
       /\ map fst bound = ["email"; "name"; "notes"]
       /\ (forall p v,
             assoc p [("email", JStr "a@b.com")] = Some v -> In (p, v) bound)
       /\ handle_tool_call (once_env 500 [email_only]) email_only empty_world
          = (Val (recorded (once_env 500 [email_only]) email_only),
             logged (dispatch_events (once_env 500 [email_only])
                       "record_user_details" bound message
                     ++ error_log {| status_code := 500;
                                     body := "reply of the server" |})
               empty_world).
Proof.
  split; [reflexivity |].
  exact (schema_conformant_call_is_carried_out (once_env 500 [email_only])
           record_user_details_json email_only [("email", JStr "a@b.com")]
           empty_world (or_introl eq_refl) eq_refl
           ltac:(vm_compute; reflexivity) eq_refl email_only_keys).
Defined.

Lemma looping_env_notice :
  notice looping_env ask_what_is_x
    = Some (question_message looping_env (JStr "What is X?")).
Proof. vm_compute. reflexivity. Qed.

(** X5 for the same question asked twice in one response. *)
Lemma registered_batch_is_notified_witness :
  transport_answers (requests_post looping_env)
  /\ length (posted (trace (snd (handle_tool_calls looping_env
                                   (Some [ask_what_is_x; ask_what_is_x])
                                   empty_world)))) = 2.
Proof.
  assert (Hpost : transport_answers (requests_post looping_env))
    by apply answering_answers.
  split; [exact Hpost |].
  exact (f_equal (@length Payload)
           (proj2 (registered_batch_is_notified looping_env
                     [ask_what_is_x; ask_what_is_x]
                     [question_message looping_env (JStr "What is X?");
                      question_message looping_env (JStr "What is X?")]
                     empty_world Hpost
                     ltac:(repeat constructor; exact looping_env_notice)))).
Defined.

(** X7 for a response without a list of tool calls and for one with the
    empty list. *)
Lemma tool_calls_absent_or_empty_witness :
  fst (chat_loop bare_env 5 1 turn_world) = Raise TypeError
  /\ chat_loop (once_env 200 []) 5 1 turn_world
     = chat_loop (once_env 200 []) 4 1
         (extended 1
            (first_messages harsha [] "hello" ++ [message (assistant_requests [])])
            (called (first_messages harsha [] "hello") turn_world)).
Proof.
  split.
  - exact (f_equal fst
             (proj1 (tool_calls_absent_or_empty bare_env 4 1 turn_world
                       (first_messages harsha [] "hello") bare_tool_calls
                       eq_refl eq_refl eq_refl) eq_refl)).
  - exact (proj2 (tool_calls_absent_or_empty (once_env 200 []) 4 1 turn_world
                    (first_messages harsha [] "hello") (assistant_requests [])
                    eq_refl eq_refl eq_refl) eq_refl).
Defined.

(** X8 for a turn with one tool call before the reply. *)
Lemma chat_reply_is_last_response_witness :
  fst (chat (once_env 200 [email_only]) 5 harsha "hello" 0 empty_world)
    = Val (Some "done")
  /\ exists earlier ms r,
       sent (trace (snd (chat (once_env 200 [email_only]) 5 harsha "hello" 0
                           empty_world))) = earlier ++ [ms]
       /\ completions_create (once_env 200 [email_only]) (length earlier) ms
          = inr r
       /\ finish_reason r <> "tool_calls"
       /\ content (message r) = Some "done".
Proof.
  assert (H : fst (chat (once_env 200 [email_only]) 5 harsha "hello" 0
                     empty_world) = Val (Some "done"))
    by (vm_compute; reflexivity).
  split; [exact H |].
  exact (chat_reply_is_last_response (once_env 200 [email_only]) 5 harsha
           "hello" 0 empty_world (Some "done") H).
Defined.

(** X9 for a model that cannot be reached, and for a server that cannot. *)
Lemma chat_passes_exceptions_on_witness :
  chat_loop no_model_env 5 1 turn_world
    = (Raise (OtherError "APIConnectionError"),
       called (first_messages harsha [] "hello") turn_world)
  /\ fst (chat_loop (offline_env [email_only]) 5 1 turn_world)
     = Raise (OtherError "ConnectionError")
  /\ fst (chat no_model_env 1 harsha "hello" 0 empty_world)
     = Raise (OtherError "APIConnectionError")
  /\ exists t ms,
       trace (snd (chat no_model_env 1 harsha "hello" 0 empty_world))
         = t ++ [ECompletion "llama3.2" ms]
       /\ completions_create no_model_env (count_completions t) ms
          = inl (OtherError "APIConnectionError").
Proof.
  assert (H : fst (chat no_model_env 1 harsha "hello" 0 empty_world)
              = Raise (OtherError "APIConnectionError"))
    by (vm_compute; reflexivity).
  split.
  { exact (proj1 (chat_passes_exceptions_on no_model_env) 4 1 turn_world
             (first_messages harsha [] "hello")
             (OtherError "APIConnectionError") eq_refl eq_refl). }
  split.
  { exact (f_equal fst
             (proj1 (proj2 (chat_passes_exceptions_on (offline_env [email_only])))
                4 1 turn_world (first_messages harsha [] "hello")
                (assistant_requests [email_only])
                (OtherError "ConnectionError")
                (snd (handle_tool_calls (offline_env [email_only])
                        (Some [email_only])
                        (called (first_messages harsha [] "hello") turn_world)))
                eq_refl eq_refl eq_refl
                ltac:(vm_compute; reflexivity))). }
  split; [exact H |].
  destruct (proj2 (proj2 (chat_passes_exceptions_on no_model_env)) 1 harsha
              "hello" 0 empty_world (OtherError "APIConnectionError") H)
    as [(Hnone & _) | [(t & ms & Ht & _ & He) | (n & _ & Hfail)]].
  - discriminate.
  - now exists t, ms.
  - exfalso. destruct Hfail as (t & ms & r & w1 & _ & _ & Hr & _).
    discriminate.
Defined.

(** X10 for a turn with one tool call before the reply. *)
Lemma chat_only_appends_witness :
  heap empty_world !! 0 = Some []
  /\ exists new,
       sent (trace (snd (chat (once_env 200 [email_only]) 5 harsha "hello" 0
                           empty_world))) = new
       /\ Forall (fun l => first_messages harsha [] "hello" `prefix_of` l) new
       /\ (forall i l l',
             new !! i = Some l -> new !! S i = Some l' ->
             l `prefix_of` l' /\ length l < length l').
Proof.
  split; [reflexivity |].
  exact (chat_only_appends (once_env 200 [email_only]) 5 harsha "hello" 0
           empty_world [] eq_refl).
Defined.

(** X11 for a PDF of three pages, the second without text. *)
Lemma init_reads_both_files_witness :
  __init__ (with_files final_env (inr [Some "page one, "; None; Some "page three"])
              (inr "the summary")) empty_world
  = (Val {| name := "A.S Harsha"; linkedin := "page one, page three";
            summary := "the summary" |}, empty_world).
Proof.
  exact (init_reads_both_files
           (with_files final_env (inr [Some "page one, "; None; Some "page three"])
              (inr "the summary"))
           empty_world [Some "page one, "; None; Some "page three"]
           "the summary" eq_refl eq_refl).
Defined.

Lemma other_error_is_other : OtherError "PdfReadError" <> FileNotFoundError.
Proof. discriminate. Qed.

(** X12 for a PDF that cannot be parsed. *)
Lemma init_stops_on_other_errors_witness :
  OtherError "PdfReadError" <> FileNotFoundError
  /\ __init__ (with_files final_env (inl (OtherError "PdfReadError"))
                 (inr "the summary")) empty_world
     = (Raise (OtherError "PdfReadError"), empty_world).
Proof.
  split; [exact other_error_is_other |].
  exact (proj1 (init_stops_on_other_errors
                  (with_files final_env (inl (OtherError "PdfReadError"))
                     (inr "the summary"))
                  empty_world (OtherError "PdfReadError") other_error_is_other)
           eq_refl).
Defined.

(** X15 for an object made with both files missing. *)
Lemma missing_summary_reaches_the_model_witness :
  read_text final_env summary_path = inl FileNotFoundError
  /\ heap empty_world !! 0 = Some []
  /\ exists new,
       sent (trace (snd (chat final_env 3
                           {| name := "A.S Harsha";
                              linkedin := linkedin_placeholder;
                              summary := summary_placeholder |}
                           "hello" 0 empty_world))) = new
       /\ Forall (prompted_with summary_placeholder) new.
Proof.
  split; [reflexivity |]. split; [reflexivity |].
  exact (missing_summary_reaches_the_model final_env empty_world _ _ 3 "hello" 0
           empty_world [] eq_refl eq_refl eq_refl).
Defined.
